(** * Photo album web application: the indexing and the search lambdas

    A shallow embedding of
    - [backend/lambda-functions/search-photos/search-photos.py] (module
      [SearchPhotos]) and
    - [backend/lambda-functions/index-photos/package/index-photos.py]
      (module [IndexPhotos]),
    together with the Python primitives they use (module [Py]), the MD5
    digest of [hashlib] (module [MD5]) and the HTTP exchange with the search
    index (module [Requests]).

    Python [str] values are lists of 8-bit characters, read as the code
    points 0..255: on such text [lower], [split] and [strip] below agree
    with Python character by character. *)

From Stdlib Require Import Ascii String ZArith Lia DecimalString.
From stdpp Require Import gmap strings list.

Local Open Scope string_scope.
Local Open Scope nat_scope.
Local Open Scope list_scope.

(** ** Python primitives *)

Module Py.

Abbreviation str := (list ascii).

Coercion list_ascii_of_string : string >-> list.

(** [str.isspace] on one character: TAB..CR, FS..US, space, NEL, NBSP. *)
Definition isspace (c : ascii) : bool :=
  let n := nat_of_ascii c in
  ((9 <=? n) && (n <=? 13)) || ((28 <=? n) && (n <=? 32))
  || (n =? 133) || (n =? 160).

(** [str.lower] on one character: A..Z and the capitals of Latin-1. *)
Definition lower_char (c : ascii) : ascii :=
  let n := nat_of_ascii c in
  if ((65 <=? n) && (n <=? 90))
     || ((192 <=? n) && (n <=? 222) && negb (n =? 215))
  then ascii_of_nat (n + 32) else c.

Definition lower (s : str) : str := map lower_char s.

Definition cons_head (c : ascii) (ws : list str) : list str :=
  match ws with
  | w :: ws' => (c :: w) :: ws'
  | [] => [[c]]
  end.

(** [s.split()]: the maximal runs of characters that are not whitespace. *)
Fixpoint split (s : str) : list str :=
  match s with
  | [] => []
  | c :: s' =>
      if isspace c then split s'
      else match s' with
           | [] => [[c]]
           | c' :: _ => if isspace c' then [c] :: split s'
                        else cons_head c (split s')
           end
  end.

(** [s.split(sep)] for a separator of one character: empty pieces are
    kept, and the empty string gives one empty piece. *)
Fixpoint split_on (sep : ascii) (s : str) : list str :=
  match s with
  | [] => [[]]
  | c :: s' =>
      if bool_decide (c = sep) then [] :: split_on sep s'
      else cons_head c (split_on sep s')
  end.

(** [sep.join(parts)] *)
Fixpoint join (sep : str) (parts : list str) : str :=
  match parts with
  | [] => []
  | [p] => p
  | p :: ps => p ++ sep ++ join sep ps
  end.

Fixpoint lstrip_with (p : ascii -> bool) (s : str) : str :=
  match s with
  | [] => []
  | c :: s' => if p c then lstrip_with p s' else s
  end.

Definition strip_with (p : ascii -> bool) (s : str) : str :=
  rev (lstrip_with p (rev (lstrip_with p s))).

Definition char_in (chars : str) (c : ascii) : bool :=
  bool_decide (c ∈ chars).

(** [s.strip(chars)]: both ends lose the characters of [chars]. *)
Definition strip_chars (chars : str) (s : str) : str :=
  strip_with (char_in chars) s.

(** [s.strip()] *)
Definition strip (s : str) : str := strip_with isspace s.

(** [s.endswith(suffix)] *)
Definition endswith (s suffix : str) : bool :=
  bool_decide (drop (length s - length suffix) s = suffix).

(** [s.endswith((suffix1, suffix2, ...))] *)
Definition endswith_any (s : str) (suffixes : list str) : bool :=
  existsb (endswith s) suffixes.

(** [s[:-k]] for [k > 0] *)
Definition drop_last (k : nat) (s : str) : str := take (length s - k) s.

(** [s.replace(old, new)] for single characters *)
Definition replace (old new : ascii) (s : str) : str :=
  map (fun c => if bool_decide (c = old) then new else c) s.

(** [needle in hay] on strings *)
Fixpoint contains (needle hay : str) : bool :=
  bool_decide (take (length needle) hay = needle)
  || match hay with
     | [] => false
     | _ :: hay' => contains needle hay'
     end.

(** *** Exceptions *)

Inductive exn :=
| KeyError (key : str)
| TypeError
| AttributeError
| ClientError          (* botocore: the service refused or was not reached *)
| ParamValidationError (* botocore: an argument of the wrong type *)
| ConnectionError      (* requests: no response *)
| JSONDecodeError
| HTTPError (status : Z).

Inductive result (A : Type) :=
| Ok (a : A)
| Raise (e : exn).
Arguments Ok {A} a.
Arguments Raise {A} e.

#[global] Instance result_ret : MRet result := fun A a => Ok a.
#[global] Instance result_bind : MBind result := fun A B f m =>
  match m with
  | Ok a => f a
  | Raise e => Raise e
  end.

#[global] Instance result_fmap : FMap result := fun A B f m =>
  match m with
  | Ok a => Ok (f a)
  | Raise e => Raise e
  end.

(** [try: return m  except Exception: return fallback] *)
Definition or_else {A} (m : result A) (fallback : A) : A :=
  match m with
  | Ok a => a
  | Raise _ => fallback
  end.

(** A list comprehension whose element expression may raise. *)
Fixpoint comprehension {A B} (f : A -> result B) (l : list A)
  : result (list B) :=
  match l with
  | [] => Ok []
  | x :: l' => y ← f x; ys ← comprehension f l'; Ok (y :: ys)
  end.

(** *** Values of the JSON fragment of Python

    A [dict] keeps its items in insertion order; its keys are distinct
    and a lookup takes the first item of that key. Numbers are integers:
    no path of the code computes with a number of its input. *)

#[warnings="-register-all"]
Inductive pyval :=
| PNone
| PBool (b : bool)
| PInt (n : Z)
| PStr (s : str)
| PList (items : list pyval)
| PDict (items : list (str * pyval)).

Definition truthy (v : pyval) : bool :=
  match v with
  | PNone => false
  | PBool b => b
  | PInt n => negb (n =? 0)%Z
  | PStr s => negb (bool_decide (s = []))
  | PList l => negb (bool_decide (length l = 0))
  | PDict d => negb (bool_decide (length d = 0))
  end.

Fixpoint lookup_key (k : str) (d : list (str * pyval)) : option pyval :=
  match d with
  | [] => None
  | (k', v) :: d' => if bool_decide (k' = k) then Some v else lookup_key k d'
  end.

Definition is_str (k : str) (v : pyval) : bool :=
  match v with
  | PStr s => bool_decide (s = k)
  | _ => false
  end.

(** [k in v] for a string [k] *)
Definition py_in (k : str) (v : pyval) : result bool :=
  match v with
  | PDict d => Ok (bool_decide (is_Some (lookup_key k d)))
  | PList l => Ok (existsb (is_str k) l)
  | PStr s => Ok (contains k s)
  | _ => Raise TypeError
  end.

(** [v[k]] for a string [k] *)
Definition getitem (v : pyval) (k : str) : result pyval :=
  match v with
  | PDict d =>
      match lookup_key k d with
      | Some x => Ok x
      | None => Raise (KeyError k)
      end
  | _ => Raise TypeError
  end.

(** [v.get(k, default)] *)
Definition get (v : pyval) (k : str) (default : pyval) : result pyval :=
  match v with
  | PDict d => Ok (from_option id default (lookup_key k d))
  | _ => Raise AttributeError
  end.

(** [v.items()] *)
Definition items (v : pyval) : result (list (str * pyval)) :=
  match v with
  | PDict d => Ok d
  | _ => Raise AttributeError
  end.

(** [for x in v] *)
Definition iter (v : pyval) : result (list pyval) :=
  match v with
  | PList l => Ok l
  | PDict d => Ok (map (fun kv => PStr (fst kv)) d)
  | PStr s => Ok (map (fun c => PStr [c]) s)
  | _ => Raise TypeError
  end.

(** A method of [str] called on [v]. *)
Definition as_str (v : pyval) : result str :=
  match v with
  | PStr s => Ok s
  | _ => Raise AttributeError
  end.

(** *** [repr] and [str], as an f-string formats a value *)

Definition hex_digit (d : nat) : ascii :=
  if d <? 10 then ascii_of_nat (48 + d) else ascii_of_nat (87 + d).

Definition isprintable (c : ascii) : bool :=
  let n := nat_of_ascii c in
  ((32 <=? n) && (n <=? 126)) || ((161 <=? n) && negb (n =? 173)).

Definition quote1 : ascii := ascii_of_nat 39.
Definition quote2 : ascii := ascii_of_nat 34.
Definition backslash : ascii := ascii_of_nat 92.

Definition repr_char (q c : ascii) : str :=
  let n := nat_of_ascii c in
  if bool_decide (c = backslash) then [backslash; backslash]
  else if bool_decide (c = q) then [backslash; q]
  else if n =? 9 then backslash :: "t"
  else if n =? 10 then backslash :: "n"
  else if n =? 13 then backslash :: "r"
  else if isprintable c then [c]
  else backslash :: "x" ++ [hex_digit (n / 16); hex_digit (n mod 16)].

Definition repr_str (s : str) : str :=
  let q := if bool_decide (quote1 ∈ s) && negb (bool_decide (quote2 ∈ s))
           then quote2 else quote1 in
  [q] ++ flat_map (repr_char q) s ++ [q].

Definition decimal (n : Z) : str :=
  list_ascii_of_string (NilEmpty.string_of_int (Z.to_int n)).

Fixpoint repr (v : pyval) : str :=
  match v with
  | PNone => "None"
  | PBool true => "True"
  | PBool false => "False"
  | PInt n => decimal n
  | PStr s => repr_str s
  | PList l => "[" ++ join ", " (map repr l) ++ "]"
  | PDict d =>
      "{" ++ join ", " (map (fun kv => repr_str (fst kv) ++ ": " ++ repr (snd kv)) d)
      ++ "}"
  end.

(** [f"{v}"] *)
Definition format (v : pyval) : str :=
  match v with
  | PStr s => s
  | _ => repr v
  end.

End Py.

Import Py.

(** ** hashlib.md5 (RFC 1321), on 32-bit words held in [Z] *)

Module MD5.
Local Open Scope Z_scope.

Definition w32 (x : Z) : Z := x mod 2 ^ 32.

Definition leftrotate (x c : Z) : Z :=
  w32 (Z.lor (Z.shiftl x c) (Z.shiftr x (32 - c))).

Definition S : list Z :=
  [ 7; 12; 17; 22; 7; 12; 17; 22; 7; 12; 17; 22; 7; 12; 17; 22;
    5; 9; 14; 20; 5; 9; 14; 20; 5; 9; 14; 20; 5; 9; 14; 20;
    4; 11; 16; 23; 4; 11; 16; 23; 4; 11; 16; 23; 4; 11; 16; 23;
    6; 10; 15; 21; 6; 10; 15; 21; 6; 10; 15; 21; 6; 10; 15; 21 ].

Definition K : list Z :=
  [ 0xd76aa478; 0xe8c7b756; 0x242070db; 0xc1bdceee;
    0xf57c0faf; 0x4787c62a; 0xa8304613; 0xfd469501;
    0x698098d8; 0x8b44f7af; 0xffff5bb1; 0x895cd7be;
    0x6b901122; 0xfd987193; 0xa679438e; 0x49b40821;
    0xf61e2562; 0xc040b340; 0x265e5a51; 0xe9b6c7aa;
    0xd62f105d; 0x02441453; 0xd8a1e681; 0xe7d3fbc8;
    0x21e1cde6; 0xc33707d6; 0xf4d50d87; 0x455a14ed;
    0xa9e3e905; 0xfcefa3f8; 0x676f02d9; 0x8d2a4c8a;
    0xfffa3942; 0x8771f681; 0x6d9d6122; 0xfde5380c;
    0xa4beea44; 0x4bdecfa9; 0xf6bb4b60; 0xbebfbc70;
    0x289b7ec6; 0xeaa127fa; 0xd4ef3085; 0x04881d05;
    0xd9d4d039; 0xe6db99e5; 0x1fa27cf8; 0xc4ac5665;
    0xf4292244; 0x432aff97; 0xab9423a7; 0xfc93a039;
    0x655b59c3; 0x8f0ccc92; 0xffeff47d; 0x85845dd1;
    0x6fa87e4f; 0xfe2ce6e0; 0xa3014314; 0x4e0811a1;
    0xf7537e82; 0xbd3af235; 0x2ad7d2bb; 0xeb86d391 ].

Definition le_bytes (n : nat) (x : Z) : list Z :=
  map (fun i => Z.shiftr x (8 * Z.of_nat i) mod 256) (seq 0 n).

(** The message followed by the bit 1, zeros up to 56 modulo 64 bytes,
    and the length in bits as 8 little-endian bytes. *)
Definition pad (msg : list Z) : list Z :=
  let len := Z.of_nat (length msg) in
  let zeros := Z.to_nat ((55 - len) mod 64) in
  msg ++ [0x80] ++ replicate zeros 0 ++ le_bytes 8 ((8 * len) mod 2 ^ 64).

Definition le_word (bs : list Z) : Z :=
  foldr (fun b acc => b + 256 * acc) 0 bs.

Fixpoint words (n : nat) (bs : list Z) : list Z :=
  match n with
  | O => []
  | Datatypes.S n' => le_word (take 4 bs) :: words n' (drop 4 bs)
  end.

Definition state : Type := Z * Z * Z * Z.

Definition round (M : list Z) (st : state) (i : nat) : state :=
  let '(A, B, C, D) := st in
  let iz := Z.of_nat i in
  let '(F, g) :=
    if iz <? 16 then
      (Z.lor (Z.land B C) (Z.land (Z.lxor B (2 ^ 32 - 1)) D), iz)
    else if iz <? 32 then
      (Z.lor (Z.land D B) (Z.land (Z.lxor D (2 ^ 32 - 1)) C),
       (5 * iz + 1) mod 16)
    else if iz <? 48 then
      (Z.lxor B (Z.lxor C D), (3 * iz + 5) mod 16)
    else
      (Z.lxor C (Z.lor B (Z.lxor D (2 ^ 32 - 1))), (7 * iz) mod 16) in
  let F := w32 (F + A + K !!! i + M !!! Z.to_nat g) in
  (D, w32 (B + leftrotate F (S !!! i)), B, C).

Definition chunk (st : state) (bs : list Z) : state :=
  let '(a0, b0, c0, d0) := st in
  let '(A, B, C, D) := foldl (round (words 16 bs)) st (seq 0 64) in
  (w32 (a0 + A), w32 (b0 + B), w32 (c0 + C), w32 (d0 + D)).

Fixpoint chunks (n : nat) (st : state) (bs : list Z) : state :=
  match n with
  | O => st
  | Datatypes.S n' => chunks n' (chunk st (take 64 bs)) (drop 64 bs)
  end.

Definition digest (msg : list Z) : list Z :=
  let padded := pad msg in
  let '(A, B, C, D) :=
    chunks (length padded / 64)
      (0x67452301, 0xefcdab89, 0x98badcfe, 0x10325476) padded in
  le_bytes 4 A ++ le_bytes 4 B ++ le_bytes 4 C ++ le_bytes 4 D.

Definition hex (bs : list Z) : str :=
  flat_map (fun b => [hex_digit (Z.to_nat (b / 16));
                      hex_digit (Z.to_nat (b mod 16))]) bs.

(** [hashlib.md5(content).hexdigest()] *)
Definition hexdigest (content : list Byte.byte) : str :=
  hex (digest (map (fun b => Z.of_N (Byte.to_N b)) content)).
End MD5.

(** ** The HTTP exchange with the search index

  The index holds its documents by URL. A request is answered by the
  index, unless the service is scripted to fail on it: with a response
  of its choice, or with no response at all. Every request sent is
  recorded. *)

Module Requests.

Inductive method := HEAD | GET | PUT | POST.

Record Credentials := {
  access_key : str;
  secret_key : str;
  token : option str
}.

Record AWS4Auth := {
  auth_access_key : str;
  auth_secret_key : str;
  auth_region : str;
  auth_service : str;
  session_token : option str
}.

Record Request := {
  req_method : method;
  req_url : str;
  req_auth : AWS4Auth;
  req_headers : list (str * str);
  req_json : option pyval
}.

Record Response := {
  status_code : Z;
  json : result pyval       (* [response.json()] *)
}.

Record Net := {
  index : gmap str pyval;
  sent : list Request
}.

Record Service := {
  fault : Request -> option (result Response);
  search : gmap str pyval -> Request -> Response
}.

(** Computations that talk to the index and may raise. *)
Definition IO (A : Type) : Type := Net -> result A * Net.

#[global] Instance io_ret : MRet IO := fun A a net => (Ok a, net).
#[global] Instance io_bind : MBind IO := fun A B f m net =>
  match m net with
  | (Ok a, net') => f a net'
  | (Raise e, net') => (Raise e, net')
  end.

Definition lift {A} (r : result A) : IO A := fun net => (r, net).

(** [try: m  except Exception as e: handler e] *)
Definition try_except {A} (m : IO A) (handler : exn -> IO A) : IO A :=
  fun net =>
    match m net with
    | (Ok a, net') => (Ok a, net')
    | (Raise e, net') => handler e net'
    end.

Definition no_body (status : Z) : Response :=
  {| status_code := status; json := Raise JSONDecodeError |}.

Definition answer (sv : Service) (rq : Request) (ix : gmap str pyval)
  : result Response * gmap str pyval :=
  match fault sv rq with
  | Some r => (r, ix)
  | None =>
      match req_method rq with
      | HEAD =>
          (Ok (no_body (if ix !! req_url rq is Some _ then 200 else 404)), ix)
      | PUT =>
          match req_json rq with
          | Some doc =>
              (Ok (no_body (if ix !! req_url rq is Some _ then 200 else 201)),
               <[req_url rq := doc]> ix)
          | None => (Ok (no_body 400), ix)
          end
      | GET | POST => (Ok (search sv ix rq), ix)
      end
  end.

Definition send (sv : Service) (rq : Request) : IO Response :=
  fun net =>
    let '(r, ix) := answer sv rq (index net) in
    (r, {| index := ix; sent := sent net ++ [rq] |}).

(** [requests.head(url, auth=auth)] *)
Definition head_request (url : str) (auth : AWS4Auth) : Request :=
  {| req_method := HEAD; req_url := url; req_auth := auth;
     req_headers := []; req_json := None |}.

(** [requests.put(url, auth=auth, json=json, headers=headers)] *)
Definition put_request (url : str) (auth : AWS4Auth) (json : pyval)
    (headers : list (str * str)) : Request :=
  {| req_method := PUT; req_url := url; req_auth := auth;
     req_headers := headers; req_json := Some json |}.

(** [requests.post(url, auth=auth, headers=headers, json=json)] *)
Definition post_request (url : str) (auth : AWS4Auth)
    (headers : list (str * str)) (json : pyval) : Request :=
  {| req_method := POST; req_url := url; req_auth := auth;
     req_headers := headers; req_json := Some json |}.

(** [AWS4Auth(credentials.access_key, credentials.secret_key, region,
    service, session_token=credentials.token)], where [credentials] is
    what [boto3.Session().get_credentials()] returned. *)
Definition aws4auth (credentials : option Credentials)
    (region service : str) : result AWS4Auth :=
  match credentials with
  | Some c =>
      Ok {| auth_access_key := access_key c;
            auth_secret_key := secret_key c;
            auth_region := region;
            auth_service := service;
            session_token := token c |}
  | None => Raise AttributeError
  end.

(** [response.raise_for_status()] *)
Definition raise_for_status (r : Response) : result unit :=
  if ((400 <=? status_code r) && (status_code r <? 600))%Z
  then Raise (HTTPError (status_code r)) else Ok tt.

End Requests.

Import Requests.

(** ** search-photos.py *)

Module SearchPhotos.

Record LexRequest := {
  botId : str;
  botAliasId : str;
  localeId : str;
  sessionId : str;
  text : str
}.

(** What the lambda is given by its surroundings: the environment
    variables, the credentials of its role, the Lex runtime (the answer
    to [recognize_text], or the exception of the client) and the search
    index. *)
Record Env := {
  OPENSEARCH_ENDPOINT : str;
  LEX_BOT_ID : str;
  LEX_BOT_ALIAS_ID : str;
  get_credentials : option Credentials;
  recognize_text : LexRequest -> result pyval;
  opensearch : Service
}.

Definition OPENSEARCH_INDEX : str := "photos".
Definition SERVICE : str := "es".
Definition AWS_REGION : str := "us-east-1".

(** Line 12. *)
Definition STOP_WORDS : gset str :=
  list_to_set
    [ "the" : str; "a" : str; "an" : str; "and" : str; "or" : str;
      "but" : str; "in" : str; "on" : str; "at" : str; "to" : str;
      "for" : str; "of" : str; "with" : str; "by" : str; "show" : str;
      "me" : str; "find" : str; "search" : str; "photos" : str;
      "pictures" : str; "images" : str ].

(** Lines 14-28. The inner test on the suffixes has no [else]: a word that
    enters the "es" branch and fails the test reaches [return word]. *)
Definition normalize_plural (word : str) : str :=
  if length word <=? 3 then word
  else if endswith word "ies" && (4 <? length word) then
    drop_last 3 word ++ "y"
  else if endswith word "es" && (3 <? length word) then
    if endswith_any word
         [ "ches" : str; "shes" : str; "xes" : str; "zes" : str;
           "sses" : str ]
    then drop_last 2 word
    else word
  else if endswith word "s" && (3 <? length word) then
    drop_last 1 word
  else word.

(** Lines 30-35. *)
Definition extract_keywords_from_text (text : str) : list str :=
  let words := split (lower text) in
  let keywords :=
    map (strip_chars ".,!?")
      (List.filter
         (fun word => bool_decide (word ∉ STOP_WORDS) && (2 <? length word))
         words) in
  map normalize_plural keywords.

Record SearchResult := {
  url : str;
  labels : pyval
}.

(** Lines 67-77: the query, one [match] clause per keyword. *)
Definition match_labels (keyword : str) : pyval :=
  PDict [("match" : str, PDict [("labels" : str, PStr keyword)])].

Definition search_query (keywords : list str) : pyval :=
  PDict
    [ ("query" : str,
       PDict
         [ ("bool" : str,
            PDict
              [ ("should" : str, PList (map match_labels keywords));
                ("minimum_should_match" : str, PInt 1) ]) ]);
      ("size" : str, PInt 50) ].

(** Lines 94-104: the body of the loop over the hits. *)
Definition result_of_hit (hit : pyval) : result SearchResult :=
  source ← getitem hit "_source";
  bucket ← get source "bucket" (PStr "");
  object_key ← get source "objectKey" (PStr "");
  let s3_url :=
    "https://" ++ format bucket ++ ".s3." ++ AWS_REGION
    ++ ".amazonaws.com/" ++ format object_key in
  labels ← get source "labels" (PList []);
  Ok {| url := s3_url; labels := labels |}.

(** Lines 38-111. *)
Definition search_photos_in_opensearch (env : Env) (keywords : list str)
  : IO (list SearchResult) :=
  if bool_decide (keywords = []) then mret []
  else if bool_decide (OPENSEARCH_ENDPOINT env = []) then mret []
  else
    try_except
      (awsauth ← lift (aws4auth (get_credentials env) AWS_REGION SERVICE);
       let query := search_query keywords in
       let url :=
         OPENSEARCH_ENDPOINT env ++ "/" ++ OPENSEARCH_INDEX ++ "/_search" in
       let headers := [("Content-Type" : str, "application/json" : str)] in
       response ← send (opensearch env) (post_request url awsauth headers query);
       _ ← lift (raise_for_status response);
       results_data ← lift (json response);
       outer ← lift (get results_data "hits" (PDict []));
       hits ← lift (get outer "hits" (PList []));
       hits ← lift (iter hits);
       lift (comprehension result_of_hit hits))
      (fun _ => mret []).

(** Lines 307-310, the body of the loop of [extract_keywords_from_slots]:
    the keywords that one slot adds. *)
Definition slot_keywords (slot_value : pyval) : result (list str) :=
  if truthy slot_value then
    has_value ← py_in "value" slot_value;
    if has_value : bool then
      value ← getitem slot_value "value";
      interpreted_value ← get value "interpretedValue" (PStr "");
      if truthy interpreted_value then
        extract_keywords_from_text <$> as_str interpreted_value
      else Ok []
    else Ok []
  else Ok [].

Fixpoint for_slots (slots : list (str * pyval)) (keywords : list str)
  : result (list str) :=
  match slots with
  | [] => Ok keywords
  | (slot_name, slot_value) :: rest =>
      added ← slot_keywords slot_value;
      for_slots rest (keywords ++ added)
  end.

(** Lines 303-311. *)
Definition extract_keywords_from_slots (slots : pyval)
  : result (list str) :=
  slots ← items slots;
  for_slots slots [].

(** Lines 211-224. *)
Definition extract_keywords_from_lex_response (lex_response : pyval)
  : list str :=
  or_else
    (has_state ← py_in "sessionState" lex_response;
     if has_state : bool then
       state ← getitem lex_response "sessionState";
       has_intent ← py_in "intent" state;
       if has_intent : bool then
         state ← getitem lex_response "sessionState";
         intent ← getitem state "intent";
         slots ← get intent "slots" (PDict []);
         keywords ← extract_keywords_from_slots slots;
         if bool_decide (keywords = []) then Ok [] else Ok keywords
       else Ok []
     else Ok [])
    [].

(** Lines 228-255. *)
Definition query_lex_bot (env : Env) (user_input : str) : pyval :=
  or_else
    (let bot_id := LEX_BOT_ID env in
     let bot_alias_id := LEX_BOT_ALIAS_ID env in
     if bool_decide (bot_id = []) then Ok PNone
     else
       recognize_text env
         {| botId := bot_id; botAliasId := bot_alias_id;
            localeId := "en_US"; sessionId := "search-session";
            text := user_input |})
    PNone.

Inductive ErrorText :=
| Message (s : str)
| StrOf (e : exn).         (* [str(e)] *)

Inductive Body :=
| ErrorBody (error : ErrorText)
| SearchBody (query : str) (keywords : list str)
    (results : list SearchResult).

(** The response of the API handler; [body] is the value that the code
    serialises with [json.dumps]. *)
Record ApiResponse := {
  statusCode : Z;
  headers : list (str * str);
  body : Body
}.

Definition cors_headers : list (str * str) :=
  [ ("Access-Control-Allow-Origin" : str, "*" : str);
    ("Content-Type" : str, "application/json" : str) ].

(** Lines 133-208. *)
Definition handle_api_search (env : Env) (event : pyval)
  : IO ApiResponse :=
  try_except
    (params ← lift (get event "queryStringParameters" PNone);
     let query_params := if truthy params then params else PDict [] in
     q ← lift (get query_params "q" (PStr ""));
     user_query ← lift (strip <$> as_str q);
     if bool_decide (user_query = []) then
       mret {| statusCode := 400; headers := cors_headers;
               body := ErrorBody (Message "Query parameter q is required") |}
     else
       let lex_response := query_lex_bot env user_query in
       let keywords :=
         if negb (truthy lex_response)
         then extract_keywords_from_text user_query
         else extract_keywords_from_lex_response lex_response in
       if bool_decide (keywords = []) then
         mret {| statusCode := 200; headers := cors_headers;
                 body := SearchBody user_query [] [] |}
       else
         search_results ← search_photos_in_opensearch env keywords;
         mret {| statusCode := 200; headers := cors_headers;
                 body := SearchBody user_query keywords search_results |})
    (fun e =>
       mret {| statusCode := 500; headers := cors_headers;
               body := ErrorBody (StrOf e) |}).

End SearchPhotos.

(** ** index-photos.py *)

Module IndexPhotos.

Record S3Object := {
  Body : list Byte.byte;
  Metadata : gmap str str
}.

(** What the lambda is given by its surroundings: the environment
    variable, the credentials of its role, the objects of the store, the
    answer of Rekognition to [detect_labels] for a bucket and a name, the
    clock as read for the i-th record, [urllib.parse.unquote_plus], and
    the search index. *)
Record Env := {
  OPENSEARCH_ENDPOINT : str;
  get_credentials : option Credentials;
  s3_objects : gmap (str * str) S3Object;
  rekognition : str -> str -> result pyval;
  now_isoformat : nat -> str;
  unquote_plus : str -> str;
  opensearch : Service
}.

Definition OPENSEARCH_INDEX : str := "photos".
Definition AWS_REGION : str := "us-east-1".
Definition SERVICE : str := "es".

(** The object that a call of [s3_client] addresses; botocore rejects a
    bucket or a key that is not a string, and the store an absent one. *)
Definition s3_object (env : Env) (bucket key : pyval) : result S3Object :=
  match bucket, key with
  | PStr b, PStr k =>
      match s3_objects env !! (b, k) with
      | Some obj => Ok obj
      | None => Raise ClientError
      end
  | _, _ => Raise ParamValidationError
  end.

(** Lines 132-161. *)
Definition detect_labels (env : Env) (bucket key : pyval) : list pyval :=
  or_else
    (response ←
       match bucket, key with
       | PStr b, PStr k => rekognition env b k
       | _, _ => Raise ParamValidationError
       end;
     found ← getitem response "Labels";
     found ← iter found;
     comprehension (fun label => getitem label "Name") found)
    [].

(** Lines 164-191. *)
Definition get_custom_labels (env : Env) (bucket key : pyval) : list str :=
  or_else
    (response ← s3_object env bucket key;
     let metadata := Metadata response in
     let custom_labels_str := default ([] : str) (metadata !! ("customlabels" : str)) in
     if bool_decide (custom_labels_str = []) then Ok []
     else Ok (map strip (split_on "," custom_labels_str)))
    [].

(** Lines 202-207: [get_object] with [Range='bytes=0-1023'], then
    [Body.read()]. *)
Definition get_object_head (env : Env) (bucket key : pyval)
  : result (list Byte.byte) :=
  obj ← s3_object env bucket key;
  Ok (take 1024 (Body obj)).

(** Lines 194-212. *)
Definition get_photo_hash (env : Env) (bucket key : pyval) : result str :=
  match get_object_head env bucket key with
  | Ok content => Ok (take 12 (MD5.hexdigest content))
  | Raise _ =>
      key ← as_str key;
      Ok (replace "." "_" (replace "/" "_" key))
  end.

(** Line 240. *)
Definition document_id (content_hash : str) : str :=
  "photo_" ++ content_hash.

(** Lines 243 and 251. *)
Definition document_url (env : Env) (document_id : str) : str :=
  OPENSEARCH_ENDPOINT env ++ "/" ++ OPENSEARCH_INDEX ++ "/_doc/"
  ++ document_id.

Definition json_headers : list (str * str) :=
  [("Content-Type" : str, "application/json" : str)].

(** Lines 215-275. The result is [None], [True] or [False]. *)
Definition index_photo (env : Env) (photo_document : pyval)
  : IO (option bool) :=
  if bool_decide (OPENSEARCH_ENDPOINT env = []) then mret None
  else
    try_except
      (awsauth ← lift (aws4auth (get_credentials env) AWS_REGION SERVICE);
       bucket ← lift (getitem photo_document "bucket");
       key ← lift (getitem photo_document "objectKey");
       content_hash ← lift (get_photo_hash env bucket key);
       let document_id := document_id content_hash in
       let check_url := document_url env document_id in
       check_response ←
         send (opensearch env) (head_request check_url awsauth);
       if (status_code check_response =? 200)%Z then mret (Some false)
       else
         let url := document_url env document_id in
         let headers := json_headers in
         response ←
           send (opensearch env)
             (put_request url awsauth photo_document headers);
         if bool_decide (status_code response ∈ [200; 201]%Z)
         then mret (Some true)
         else mret (Some false))
      (fun _ => mret (Some false)).

(** Lines 93-111, steps 1 to 4 of the loop of [handle_s3_indexing]: the
    document of the object at [bucket], [key], when the clock reads
    [timestamp]. *)
Definition photo_document (env : Env) (bucket : pyval) (key : str)
    (timestamp : str) : pyval :=
  let labels := detect_labels env bucket (PStr key) in
  let custom_labels := get_custom_labels env bucket (PStr key) in
  let all_labels := labels ++ map PStr custom_labels in
  PDict
    [ ("objectKey" : str, PStr key);
      ("bucket" : str, bucket);
      ("createdTimestamp" : str, PStr timestamp);
      ("labels" : str, PList all_labels) ].

(** Lines 88-89. *)
Definition record_location (env : Env) (record : pyval)
  : result (pyval * str) :=
  s3 ← getitem record "s3";
  bucket ← getitem s3 "bucket";
  bucket ← getitem bucket "name";
  s3 ← getitem record "s3";
  object ← getitem s3 "object";
  key ← getitem object "key";
  key ← as_str key;
  Ok (bucket, unquote_plus env key).

Fixpoint for_records (env : Env) (i : nat) (records : list pyval)
  : IO unit :=
  match records with
  | [] => mret tt
  | record :: rest =>
      location ← lift (record_location env record);
      let '(bucket, key) := location in
      let document := photo_document env bucket key (now_isoformat env i) in
      _ ← (if bool_decide (OPENSEARCH_ENDPOINT env = []) then mret None
           else index_photo env document);
      for_records env (S i) rest
  end.

Record LambdaResponse := {
  statusCode : Z;
  body : str
}.

(** Lines 71-129. [body] is the value that the code serialises. *)
Definition handle_s3_indexing (env : Env) (event : pyval)
  : IO LambdaResponse :=
  try_except
    (records ← lift (getitem event "Records" ≫= iter);
     _ ← for_records env 0 records;
     mret {| statusCode := 200;
             body := "Photo(s) processed successfully" |})
    (fun e => lift (Raise e)).

End IndexPhotos.

(** ** More of Python: assignment to a key, [json.dumps] of strings *)

Module PyMore.

(** [d[k] = v] on the items of a dict: the value of an existing key is
    replaced where it stands, a new key goes to the end. *)
Fixpoint set_key (k : str) (v : pyval) (d : list (str * pyval))
  : list (str * pyval) :=
  match d with
  | [] => [(k, v)]
  | (k', x) :: d' =>
      if bool_decide (k' = k) then (k, v) :: d' else (k', x) :: set_key k v d'
  end.

(** [target[k] = v] *)
Definition setitem (target : pyval) (k : str) (v : pyval) : result pyval :=
  match target with
  | PDict d => Ok (PDict (set_key k v d))
  | _ => Raise TypeError
  end.

(** [v == k] for a string [k] *)
Definition eq_str (v : pyval) (k : str) : bool := is_str k v.

(** One character of a string in [json.dumps], which escapes all but the
    printable ASCII characters. *)
Definition json_char (c : ascii) : str :=
  let n := nat_of_ascii c in
  if n =? 34 then [backslash; quote2]
  else if n =? 92 then [backslash; backslash]
  else if n =? 10 then backslash :: "n"
  else if n =? 13 then backslash :: "r"
  else if n =? 9 then backslash :: "t"
  else if n =? 8 then backslash :: "b"
  else if n =? 12 then backslash :: "f"
  else if (32 <=? n) && (n <=? 126) then [c]
  else backslash :: "u00" ++ [hex_digit (n / 16); hex_digit (n mod 16)].

Definition json_string (s : str) : str :=
  [quote2] ++ flat_map json_char s ++ [quote2].

(** [json.dumps(l)] for a list of strings *)
Definition dumps_strings (l : list str) : str :=
  "[" ++ join ", " (map json_string l) ++ "]".

End PyMore.

Import PyMore.

(** ** search-photos.py: the Lex fulfillment and the entry point *)

Module SearchPhotosHandlers.
Import SearchPhotos.

(** The text of a message. Two of the texts of the code are kept as
    symbols: the apology, whose apostrophe is the character U+2019, and
    the text built from [str(e)]. *)
Inductive Content :=
| Text (s : str)
| Sorry                       (* "Sorry, I didn't quite get that." *)
| ErrorProcessing (e : exn).  (* f"Error processing request: {str(e)}" *)

Record LexMessage := {
  contentType : str;
  content : Content
}.

(** The dict under "sessionState" of a response; [sessionAttributes] is
    [None] while the dict has no such key. *)
Record SessionState := {
  dialogAction : pyval;
  intent : pyval;
  sessionAttributes : option (list (str * str))
}.

(** The dict that [response] returns; [messages] is [None] while the dict
    has no such key. *)
Record LexBody := {
  sessionState : SessionState;
  messages : option (list LexMessage)
}.

(** What a call of [close] leaves: the response, and the event, whose
    intent the call has assigned to. The intent of the response is that
    same object. *)
Record Closed := {
  closed_body : LexBody;
  closed_event : pyval
}.

(** Lines 257-258. *)
Definition text_message (content : Content) : LexMessage :=
  {| contentType := "PlainText"; content := content |}.

(** Lines 260-266. *)
Definition response (session_state : SessionState)
    (messages : option (list LexMessage))
    (session_attributes : option (list (str * str))) : LexBody :=
  let body := {| sessionState := session_state; messages := None |} in
  let body :=
    match session_attributes with
    | Some (_ :: _) =>
        {| sessionState :=
             {| dialogAction := dialogAction (sessionState body);
                intent := intent (sessionState body);
                sessionAttributes := session_attributes |};
           messages := SearchPhotosHandlers.messages body |}
    | _ => body
    end in
  match messages with
  | Some (_ :: _) =>
      {| sessionState := sessionState body; messages := messages |}
  | _ => body
  end.

(** Lines 268-278. The assignment to [intent["state"]] changes the intent
    inside the event: an event is a tree, as parsed from JSON, and no other
    part of it is this object. *)
Definition close (event : pyval) (fulfillment_state : str)
    (message : Content) (session_attributes : option (list (str * str)))
  : result Closed :=
  state ← getitem event "sessionState";
  intent ← getitem state "intent";
  intent ← setitem intent "state" (PStr fulfillment_state);
  state ← setitem state "intent" intent;
  event ← setitem event "sessionState" state;
  Ok {| closed_body :=
          response
            {| dialogAction := PDict [("type" : str, PStr "Close")];
               intent := intent;
               sessionAttributes := None |}
            (Some [text_message message])
            session_attributes;
        closed_event := event |}.

(** Lines 280-301. *)
Definition handle_lex_fulfillment (event : pyval) : result Closed :=
  let attempt :=
    state ← getitem event "sessionState";
    intent ← getitem state "intent";
    intent_name ← getitem intent "name";
    state ← getitem event "sessionState";
    intent ← getitem state "intent";
    slots ← getitem intent "slots";
    input_transcript ← get event "inputTranscript" (PStr "");
    if eq_str intent_name "FallbackIntent" then
      close event "Fulfilled" Sorry None
    else
      keywords ← extract_keywords_from_slots slots;
      close event "Fulfilled"
        (Text ("Searching for photos with keywords: " ++ join ", " keywords))
        (Some [("results" : str, dumps_strings keywords)]) in
  match attempt with
  | Ok closed => Ok closed
  | Raise e => close event "Failed" (ErrorProcessing e) None
  end.

(** Lines 114-130. *)
Definition lambda_handler (env : Env) (event : pyval)
  : IO (Closed + ApiResponse) :=
  from_lex ←
    lift (has_state ← py_in "sessionState" event;
          if has_state : bool then
            state ← get event "sessionState" (PDict []);
            py_in "intent" state
          else Ok false);
  if from_lex : bool then
    closed ← lift (handle_lex_fulfillment event);
    mret (inl closed)
  else
    answer ← handle_api_search env event;
    mret (inr answer).

End SearchPhotosHandlers.

(** ** index-photos.py: the queries and the entry point *)

Module IndexPhotosHandlers.
Import IndexPhotos.

(** [requests.get(url, auth=auth)] *)
Definition get_request (url : str) (auth : AWS4Auth) : Request :=
  {| req_method := GET; req_url := url; req_auth := auth;
     req_headers := []; req_json := None |}.

(** The value that [handle_query] serialises as its body. *)
Inductive QueryBody :=
| Dumps (v : pyval)           (* [response.json()] *)
| DumpsText (r : Response)    (* [response.text] *)
| DumpsMessage (s : str)
| QueryError (e : exn).       (* f'Query error: {str(e)}' *)

Record QueryResponse := {
  query_statusCode : Z;
  query_body : QueryBody
}.

(** Line 66: the response of the index as the body of the answer. *)
Definition answer_of (response : Response) : result QueryResponse :=
  if (status_code response =? 200)%Z then
    v ← json response;
    Ok {| query_statusCode := 200; query_body := Dumps v |}
  else Ok {| query_statusCode := 200; query_body := DumpsText response |}.

Definition match_all_query : pyval :=
  PDict [ ("query" : str, PDict [("match_all" : str, PDict [])]);
          ("size" : str, PInt 10) ].

(** Lines 34-69. *)
Definition handle_query (env : Env) (event : pyval) : IO QueryResponse :=
  if bool_decide (OPENSEARCH_ENDPOINT env = []) then
    mret {| query_statusCode := 400;
            query_body := DumpsMessage "OpenSearch endpoint not configured" |}
  else
    try_except
      (awsauth ← lift (aws4auth (get_credentials env) AWS_REGION SERVICE);
       query_type ← lift (get event "queryType" (PStr "count"));
       if eq_str query_type "count" then
         let url :=
           OPENSEARCH_ENDPOINT env ++ "/" ++ OPENSEARCH_INDEX ++ "/_count" in
         response ← send (opensearch env) (get_request url awsauth);
         lift (answer_of response)
       else if eq_str query_type "all" then
         let url :=
           OPENSEARCH_ENDPOINT env ++ "/" ++ OPENSEARCH_INDEX ++ "/_search" in
         let query := match_all_query in
         response ←
           send (opensearch env)
             (post_request url awsauth json_headers query);
         lift (answer_of response)
       else
         mret {| query_statusCode := 400;
                 query_body := DumpsMessage "Invalid queryType" |})
      (fun e =>
         mret {| query_statusCode := 500; query_body := QueryError e |}).

(** Lines 19-32. *)
Definition lambda_handler (env : Env) (event : pyval)
  : IO (QueryResponse + LambdaResponse) :=
  action ← lift (get event "action" PNone);
  if eq_str action "query" then
    answer ← handle_query env event;
    mret (inl answer)
  else
    answer ← handle_s3_indexing env event;
    mret (inr answer).

End IndexPhotosHandlers.

(** ** Notions used to state the properties *)

Module Spec.

(** The characters that [extract_keywords_from_text] strips. *)
Definition punctuation : str := ".,!?".

Definition no_punctuation (x : str) : Prop :=
  Forall (fun c => char_in punctuation c = false) x.

(** A character that lowering, splitting and stripping leave alone. *)
Definition plain (c : ascii) : Prop :=
  (lower_char c = c /\ char_in punctuation c = false)
  /\ isspace c = false.

(** The test that [extract_keywords_from_text] applies to a word. *)
Definition kept (word : str) : bool :=
  bool_decide (word ∉ SearchPhotos.STOP_WORDS) && (2 <? length word).

(** A list of strings written as literals. *)
Definition strs (l : list string) : list str := map list_ascii_of_string l.

(** Interpreted slot data as the specification has it, a slot name with
    an optional interpreted value, in the JSON form of a Lex response:
    [null] for a slot without a value. *)
Definition slot_json (interpreted : option str) : pyval :=
  match interpreted with
  | None => PNone
  | Some s =>
      PDict [("value" : str, PDict [("interpretedValue" : str, PStr s)])]
  end.

Definition slots_json (slots : list (str * option str)) : pyval :=
  PDict (map (fun slot => (fst slot, slot_json (snd slot))) slots).

(** The tokens that one slot contributes, in the words of the
    specification. *)
Definition slot_tokens (interpreted : option str) : list str :=
  match interpreted with
  | Some s =>
      if bool_decide (s = []) then []
      else SearchPhotos.extract_keywords_from_text s
  | None => []
  end.

(** The interpreted value of a slot as Lex sends it, whatever else the
    slot holds: the string under "interpretedValue" of the object under
    "value"; none for a slot that is [null], that has no "value", or
    whose value has no such string. *)
Definition interpreted_value (slot_value : pyval) : option str :=
  match slot_value with
  | PDict slot =>
      match lookup_key "value" slot with
      | Some (PDict value) =>
          match lookup_key "interpretedValue" value with
          | Some (PStr s) => Some s
          | _ => None
          end
      | _ => None
      end
  | _ => None
  end.

(** A slot of a Lex response: [null], or an object, with any keys, whose
    "value", when it has one, is an object, with any keys, whose
    "interpretedValue", when it has one, is a string or [null]. *)
Definition lex_slot (slot_value : pyval) : Prop :=
  match slot_value with
  | PNone => True
  | PDict slot =>
      match lookup_key "value" slot with
      | None => True
      | Some (PDict value) =>
          match lookup_key "interpretedValue" value with
          | None | Some PNone | Some (PStr _) => True
          | Some _ => False
          end
      | Some _ => False
      end
  | _ => False
  end.

(** The tokens of a mapping of slot names to slots, in the words of the
    specification: for every slot with a non-empty interpreted value,
    the tokens of that value, appended in the order of the slots. *)
Definition resolve (slots : list (str * pyval)) : list str :=
  flat_map (fun slot => slot_tokens (interpreted_value (snd slot))) slots.

(** Slots in the full form of a Lex response: a resolved slot with its
    other keys, a slot that is [null], a slot without a value, a value
    without an interpreted value, an interpreted value that is [null],
    and an empty one. *)
Definition lex_slots : list (str * pyval) :=
  [ ("animal" : str,
     PDict [ ("shape" : str, PStr "Scalar");
             ("value" : str,
              PDict [ ("originalValue" : str, PStr "dogs");
                      ("interpretedValue" : str, PStr "Dogs");
                      ("resolvedValues" : str, PList [PStr "Dogs"]) ]) ]);
    ("color" : str, PNone);
    ("place" : str, PDict [("shape" : str, PStr "Scalar")]);
    ("season" : str,
     PDict [("value" : str, PDict [("originalValue" : str, PStr "last")])]);
    ("mood" : str,
     PDict [("value" : str, PDict [("interpretedValue" : str, PNone)])]);
    ("size" : str,
     PDict [("value" : str, PDict [("interpretedValue" : str, PStr "")])]);
    ("scene" : str,
     PDict [ ("value" : str,
              PDict [("interpretedValue" : str, PStr "Sandy Beaches")]) ]) ].

(** The keywords that a response of the API handler reports. *)
Definition resolved (r : result SearchPhotos.ApiResponse)
  : option (list str) :=
  match r with
  | Ok {| SearchPhotos.body := SearchPhotos.SearchBody _ keywords _ |} =>
      Some keywords
  | _ => None
  end.

(** The request that [query_lex_bot] sends for a query. *)
Definition lex_request (env : SearchPhotos.Env) (user_input : str)
  : SearchPhotos.LexRequest :=
  {| SearchPhotos.botId := SearchPhotos.LEX_BOT_ID env;
     SearchPhotos.botAliasId := SearchPhotos.LEX_BOT_ALIAS_ID env;
     SearchPhotos.localeId := "en_US";
     SearchPhotos.sessionId := "search-session";
     SearchPhotos.text := user_input |}.

(** Lex gives the lambda nothing to work with: the bot is not
    configured, the call raises, or the answer is [None] or empty. *)
Definition lex_unavailable (env : SearchPhotos.Env) (user_input : str)
  : Prop :=
  SearchPhotos.LEX_BOT_ID env = []
  \/ match SearchPhotos.recognize_text env (lex_request env user_input) with
     | Raise _ => True
     | Ok r => truthy r = false
     end.

(** Lex answers the query with the response [r], which is not empty. *)
Definition lex_answers (env : SearchPhotos.Env) (user_input : str)
    (r : pyval) : Prop :=
  SearchPhotos.LEX_BOT_ID env <> []
  /\ SearchPhotos.recognize_text env (lex_request env user_input) = Ok r
  /\ truthy r = true.

(** *** Worlds for the examples *)

Definition some_credentials : Credentials :=
  {| access_key := "AKIAEXAMPLE"; secret_key := "secret";
     token := Some ("token" : str) |}.

(** An index that answers every request, and finds nothing. *)
Definition sound_index : Service :=
  {| fault := fun _ => None;
     search := fun _ _ =>
       {| status_code := 200;
          json := Ok (PDict [("hits" : str,
                              PDict [("hits" : str, PList [])])]) |} |}.

(** Lex recognizes no intent in the query: the fallback intent, with no
    slots. *)
Definition fallback_intent : pyval :=
  PDict
    [ ("sessionState" : str,
       PDict
         [ ("intent" : str,
            PDict [ ("name" : str, PStr "FallbackIntent");
                    ("slots" : str, PDict []) ]) ]) ].

(** Lex recognizes a search for cats. *)
Definition cats_intent : pyval :=
  PDict
    [ ("sessionState" : str,
       PDict
         [ ("intent" : str,
            PDict
              [ ("name" : str, PStr "SearchIntent");
                ("slots" : str, slots_json [("animal" : str, Some ("Cats" : str))])
              ]) ]) ].

Definition search_env (bot_id : str) (lex : result pyval)
  : SearchPhotos.Env :=
  {| SearchPhotos.OPENSEARCH_ENDPOINT := "https://search.example.com";
     SearchPhotos.LEX_BOT_ID := bot_id;
     SearchPhotos.LEX_BOT_ALIAS_ID := "TSTALIASID";
     SearchPhotos.get_credentials := Some some_credentials;
     SearchPhotos.recognize_text := fun _ => lex;
     SearchPhotos.opensearch := sound_index |}.

Definition api_event (q : str) : pyval :=
  PDict [("queryStringParameters" : str, PDict [("q" : str, PStr q)])].

Definition empty_net : Net := {| index := ∅; sent := [] |}.

(** *** The indexer *)

(** The label aggregator, in the words of the specification: the vision
    labels, then the pieces of the metadata string between its commas,
    each trimmed of whitespace; nothing for an empty or absent string. *)
Definition aggregate (visionLabels : list str)
    (metadataLabelsCsv : option str) : list str :=
  visionLabels
  ++ match metadataLabelsCsv with
     | Some csv =>
         if bool_decide (csv = []) then []
         else map strip (split_on "," csv)
     | None => []
     end.

(** The metadata string of an object, if the object and the entry
    exist. *)
Definition custom_labels_csv (env : IndexPhotos.Env) (bucket key : str)
  : option str :=
  obj ← IndexPhotos.s3_objects env !! (bucket, key);
  IndexPhotos.Metadata obj !! ("customlabels" : str).

(** An invocation of [index_photo] gets as far as the index: it signs
    its requests with [auth], and the fingerprint of its document is
    [h]. *)
Definition reaches_index (env : IndexPhotos.Env) (doc : pyval)
    (auth : AWS4Auth) (h : str) : Prop :=
  IndexPhotos.OPENSEARCH_ENDPOINT env <> []
  /\ aws4auth (IndexPhotos.get_credentials env) IndexPhotos.AWS_REGION
       IndexPhotos.SERVICE = Ok auth
  /\ exists bucket key,
       getitem doc "bucket" = Ok bucket
       /\ getitem doc "objectKey" = Ok key
       /\ IndexPhotos.get_photo_hash env bucket key = Ok h.

(** The URL of the document of fingerprint [h], the existence check for
    it and the write of [doc] under it. *)
Definition identity_url (env : IndexPhotos.Env) (h : str) : str :=
  IndexPhotos.document_url env (IndexPhotos.document_id h).

Definition check_request (env : IndexPhotos.Env) (auth : AWS4Auth)
    (h : str) : Request :=
  head_request (identity_url env h) auth.

Definition write_request (env : IndexPhotos.Env) (auth : AWS4Auth)
    (h : str) (doc : pyval) : Request :=
  put_request (identity_url env h) auth doc IndexPhotos.json_headers.

(** What the service answers to a request, given the index. *)
Definition answered (env : IndexPhotos.Env) (rq : Request) (net : Net)
  : result Response :=
  (answer (IndexPhotos.opensearch env) rq (index net)).1.

(** The outcomes of [index_photo] other than an insertion, once the
    endpoint is configured: no credentials; no fingerprint for the
    document; no answer to the existence check; a duplicate; no answer
    to the write; a write that the index refuses. *)
Inductive failure_or_duplicate (env : IndexPhotos.Env) (doc : pyval)
    (net : Net) : Prop :=
| no_credentials :
    IndexPhotos.get_credentials env = None ->
    failure_or_duplicate env doc net
| no_fingerprint e :
    (bucket ← getitem doc "bucket";
     key ← getitem doc "objectKey";
     IndexPhotos.get_photo_hash env bucket key) = Raise e ->
    failure_or_duplicate env doc net
| check_not_answered auth h e :
    reaches_index env doc auth h ->
    answered env (check_request env auth h) net = Raise e ->
    failure_or_duplicate env doc net
| duplicate auth h check :
    reaches_index env doc auth h ->
    answered env (check_request env auth h) net = Ok check ->
    status_code check = 200%Z ->
    failure_or_duplicate env doc net
| write_not_answered auth h check e :
    reaches_index env doc auth h ->
    answered env (check_request env auth h) net = Ok check ->
    status_code check <> 200%Z ->
    answered env (write_request env auth h doc) net = Raise e ->
    failure_or_duplicate env doc net
| write_refused auth h check r :
    reaches_index env doc auth h ->
    answered env (check_request env auth h) net = Ok check ->
    status_code check <> 200%Z ->
    answered env (write_request env auth h doc) net = Ok r ->
    status_code r ∉ [200; 201]%Z ->
    failure_or_duplicate env doc net.

(** *** A world for the examples of the indexer *)

(** Two photos that agree on their first 1024 bytes, and differ after
    them. *)
Definition beach1 : IndexPhotos.S3Object :=
  {| IndexPhotos.Body := replicate 1024 Byte.xff ++ [Byte.x01];
     IndexPhotos.Metadata := {[ ("customlabels" : str) := ("Sunset, Family" : str) ]} |}.

Definition beach2 : IndexPhotos.S3Object :=
  {| IndexPhotos.Body := replicate 1024 Byte.xff ++ [Byte.x02; Byte.x03];
     IndexPhotos.Metadata := ∅ |}.

Definition labels_response (names : list str) : pyval :=
  PDict [("Labels" : str,
          PList (map (fun name => PDict [("Name" : str, PStr name)]) names))].

Definition index_env (sv : Service) : IndexPhotos.Env :=
  {| IndexPhotos.OPENSEARCH_ENDPOINT := "https://search.example.com";
     IndexPhotos.get_credentials := Some some_credentials;
     IndexPhotos.s3_objects :=
       <[ ("album" : str, "vacation/beach1.jpg" : str) := beach1 ]>
         {[ ("album" : str, "vacation/beach2.jpg" : str) := beach2 ]};
     IndexPhotos.rekognition := fun _ _ =>
       Ok (labels_response (strs ["Beach"; "Ocean"]));
     IndexPhotos.now_isoformat := fun _ => "2024-05-01T10:00:00";
     IndexPhotos.unquote_plus := fun key => key;
     IndexPhotos.opensearch := sv |}.

(** An index that refuses every write with the status 503. *)
Definition refusing_writes : Service :=
  {| fault := fun rq =>
       match req_method rq with
       | PUT => Some (Ok (no_body 503))
       | _ => None
       end;
     search := search sound_index |}.

(** An index that refuses every existence check with the status 403. *)
Definition forbidden_checks : Service :=
  {| fault := fun rq =>
       match req_method rq with
       | HEAD => Some (Ok (no_body 403))
       | _ => None
       end;
     search := search sound_index |}.

(** The document that [handle_s3_indexing] builds for the first photo. *)
Definition beach1_document : pyval :=
  IndexPhotos.photo_document (index_env sound_index) (PStr "album")
    "vacation/beach1.jpg" "2024-05-01T10:00:00".

Definition signed : AWS4Auth :=
  {| auth_access_key := "AKIAEXAMPLE"; auth_secret_key := "secret";
     auth_region := "us-east-1"; auth_service := "es";
     session_token := Some ("token" : str) |}.

End Spec.

Import Spec.

(** ** Notions used to state further properties *)

Module SpecMore.

(** Lines 137-138 of search-photos.py: the query that [handle_api_search]
    reads from its event. *)
Definition query_of (event : pyval) : result str :=
  params ← get event "queryStringParameters" PNone;
  let query_params := if truthy params then params else PDict [] in
  q ← get query_params "q" (PStr "");
  strip <$> as_str q.

(** The intent of a Lex event. *)
Definition intent_of (event : pyval) : result pyval :=
  state ← getitem event "sessionState";
  getitem state "intent".

(** The only message of a response of [close]. *)
Definition message_of (closed : SearchPhotosHandlers.Closed)
  : option SearchPhotosHandlers.Content :=
  match SearchPhotosHandlers.messages
          (SearchPhotosHandlers.closed_body closed) with
  | Some [m] => Some (SearchPhotosHandlers.content m)
  | _ => None
  end.

Definition attributes_of (closed : SearchPhotosHandlers.Closed)
  : option (list (str * str)) :=
  SearchPhotosHandlers.sessionAttributes
    (SearchPhotosHandlers.sessionState
       (SearchPhotosHandlers.closed_body closed)).

Definition state_of (closed : SearchPhotosHandlers.Closed) : result pyval :=
  getitem
    (SearchPhotosHandlers.intent
       (SearchPhotosHandlers.sessionState
          (SearchPhotosHandlers.closed_body closed)))
    "state".

(** The URL that [search_photos_in_opensearch] posts its query to. *)
Definition search_url (env : SearchPhotos.Env) : str :=
  SearchPhotos.OPENSEARCH_ENDPOINT env ++ "/" ++ SearchPhotos.OPENSEARCH_INDEX
  ++ "/_search".

Definition search_request (env : SearchPhotos.Env) (auth : AWS4Auth)
    (keywords : list str) : Request :=
  post_request (search_url env) auth
    [("Content-Type" : str, "application/json" : str)]
    (SearchPhotos.search_query keywords).

(** Lines 85-107: what [search_photos_in_opensearch] makes of the answer
    to its request. *)
Definition results_of (answer : result Response)
  : list SearchPhotos.SearchResult :=
  or_else
    (response ← answer;
     _ ← raise_for_status response;
     results_data ← json response;
     outer ← get results_data "hits" (PDict []);
     hits ← get outer "hits" (PList []);
     hits ← iter hits;
     comprehension SearchPhotos.result_of_hit hits)
    [].

(** Lines 284-299: what [handle_lex_fulfillment] decides from the intent
    of its event, the message and the session attributes of a fulfilled
    request, or the exception. *)
Definition fulfillment_of (intent : pyval)
  : result (SearchPhotosHandlers.Content * option (list (str * str))) :=
  intent_name ← getitem intent "name";
  slots ← getitem intent "slots";
  if eq_str intent_name "FallbackIntent" then
    Ok (SearchPhotosHandlers.Sorry, None)
  else
    keywords ← SearchPhotos.extract_keywords_from_slots slots;
    Ok (SearchPhotosHandlers.Text
          ("Searching for photos with keywords: " ++ join ", " keywords),
        Some [("results" : str, dumps_strings keywords)]).

(** The answer of the API handler with a status and a body. *)
Definition api_answer (status : Z) (body : SearchPhotos.Body)
  : SearchPhotos.ApiResponse :=
  {| SearchPhotos.statusCode := status;
     SearchPhotos.headers := SearchPhotos.cors_headers;
     SearchPhotos.body := body |}.

(** The keywords that [handle_api_search] resolves for a query (lines
    155-164). *)
Definition keywords_for (env : SearchPhotos.Env) (user_query : str)
  : list str :=
  let lex_response := SearchPhotos.query_lex_bot env user_query in
  if negb (truthy lex_response)
  then SearchPhotos.extract_keywords_from_text user_query
  else SearchPhotos.extract_keywords_from_lex_response lex_response.

(** An index that answers every search with the given hits. *)
Definition answering (hits : list pyval) : Service :=
  {| fault := fun _ => None;
     search := fun _ _ =>
       {| status_code := 200;
          json := Ok (PDict [("hits" : str,
                              PDict [("hits" : str, PList hits)])]) |} |}.

(** A search lambda without Lex, on a given index. *)
Definition search_env_on (sv : Service) : SearchPhotos.Env :=
  {| SearchPhotos.OPENSEARCH_ENDPOINT := "https://search.example.com";
     SearchPhotos.LEX_BOT_ID := "";
     SearchPhotos.LEX_BOT_ALIAS_ID := "TSTALIASID";
     SearchPhotos.get_credentials := Some some_credentials;
     SearchPhotos.recognize_text := fun _ => Raise ClientError;
     SearchPhotos.opensearch := sv |}.

Definition beach1_hit : pyval :=
  PDict [ ("_index" : str, PStr "photos");
          ("_id" : str, PStr "photo_9a8918b11878");
          ("_source" : str, beach1_document) ].

Definition hit_without_source : pyval :=
  PDict [ ("_index" : str, PStr "photos"); ("_id" : str, PStr "other") ].

(** A hexadecimal digit, in lower case. *)
Definition is_hex (c : ascii) : Prop := c ∈ list_ascii_of_string "0123456789abcdef".

(** The records of an S3 event, none when the event has no list of them. *)
Definition records_of (event : pyval) : list pyval :=
  or_else (getitem event "Records" ≫= iter) [].

(** A request that [index_photo] may send. *)
Definition check_or_write (rq : Request) : Prop :=
  req_method rq = HEAD \/ req_method rq = PUT.

(** What [handle_s3_indexing] returns when it returns. *)
Definition processed : IndexPhotos.LambdaResponse :=
  {| IndexPhotos.statusCode := 200;
     IndexPhotos.body := "Photo(s) processed successfully" |}.

(** The document that the loop of [handle_s3_indexing] builds for its
    i-th record. *)
Definition document_of (env : IndexPhotos.Env) (i : nat) (record : pyval)
  : result pyval :=
  location ← IndexPhotos.record_location env record;
  Ok (IndexPhotos.photo_document env location.1 location.2
        (IndexPhotos.now_isoformat env i)).

(** The documents of the records of a batch, from the i-th on, have
    their identities in the index [ix], as far as the loop of
    [handle_s3_indexing] gets: up to the first record that it cannot
    locate. *)
Fixpoint covered (env : IndexPhotos.Env) (i : nat) (records : list pyval)
    (ix : gmap str pyval) : Prop :=
  match records with
  | [] => True
  | record :: rest =>
      match document_of env i record with
      | Raise _ => True
      | Ok doc =>
          (forall auth h,
             reaches_index env doc auth h ->
             is_Some (ix !! identity_url env h))
          /\ covered env (S i) rest ix
      end
  end.

(** The index answers every request. *)
Definition no_faults (sv : Service) : Prop := forall rq, fault sv rq = None.

(** The request of [handle_query] for a query type (lines 54-60), none
    for a type that it does not know. *)
Definition query_request (env : IndexPhotos.Env) (auth : AWS4Auth)
    (query_type : pyval) : option Request :=
  if eq_str query_type "count" then
    Some (IndexPhotosHandlers.get_request
            (IndexPhotos.OPENSEARCH_ENDPOINT env ++ "/"
             ++ IndexPhotos.OPENSEARCH_INDEX ++ "/_count") auth)
  else if eq_str query_type "all" then
    Some (post_request
            (IndexPhotos.OPENSEARCH_ENDPOINT env ++ "/"
             ++ IndexPhotos.OPENSEARCH_INDEX ++ "/_search") auth
            IndexPhotos.json_headers IndexPhotosHandlers.match_all_query)
  else None.

(** The loop of [handle_s3_indexing] finds the bucket and the key of a
    record. *)
Definition located (env : IndexPhotos.Env) (record : pyval) : Prop :=
  exists location, IndexPhotos.record_location env record = Ok location.

(** The records of an event, as the loop of [handle_s3_indexing] gets
    them. *)
Definition event_records (event : pyval) : result (list pyval) :=
  getitem event "Records" ≫= iter.

(** The answer of [handle_query] when something raised. *)
Definition query_failed (e : exn) : IndexPhotosHandlers.QueryResponse :=
  {| IndexPhotosHandlers.query_statusCode := 500;
     IndexPhotosHandlers.query_body := IndexPhotosHandlers.QueryError e |}.

(** Worlds and events for the examples. *)

(** The document that [handle_s3_indexing] builds for the second photo. *)
Definition beach2_document : pyval :=
  IndexPhotos.photo_document (index_env sound_index) (PStr "album")
    "vacation/beach2.jpg" "2024-05-01T10:00:00".

(** An index that refuses every query with the status 403. *)
Definition forbidden_queries : Service :=
  {| fault := fun rq =>
       match req_method rq with
       | GET | POST => Some (Ok (no_body 403))
       | _ => None
       end;
     search := search sound_index |}.

Definition query_event (query_type : str) : pyval :=
  PDict [ ("action" : str, PStr "query");
          ("queryType" : str, PStr query_type) ].


Definition lex_event (name : str) (slots : pyval) : pyval :=
  PDict
    [ ("sessionState" : str,
       PDict
         [ ("intent" : str,
            PDict [ ("name" : str, PStr name);
                    ("slots" : str, slots);
                    ("state" : str, PStr "ReadyForFulfillment") ]) ]);
      ("inputTranscript" : str, PStr "show me dogs") ].

Definition dogs_slots : pyval :=
  slots_json [("animal" : str, Some ("Dogs" : str)); ("color" : str, None)].

Definition s3_record (key : str) : pyval :=
  PDict
    [ ("s3" : str,
       PDict
         [ ("bucket" : str, PDict [("name" : str, PStr "album")]);
           ("object" : str, PDict [("key" : str, PStr key)]) ]) ].

Definition s3_event (keys : list str) : pyval :=
  PDict [("Records" : str, PList (map s3_record keys))].

(** A record with no key. *)
Definition record_without_key : pyval :=
  PDict [ ("s3" : str,
           PDict [ ("bucket" : str, PDict [("name" : str, PStr "album")]);
                   ("object" : str, PDict []) ]) ].

(** An event whose second record has no key. *)
Definition broken_event : pyval :=
  PDict [("Records" : str,
          PList [ s3_record "vacation/beach1.jpg";
                  record_without_key;
                  s3_record "vacation/beach2.jpg" ])].

End SpecMore.

Import SpecMore.

(** * Properties *)

(** ** The Python primitives *)

Section PyFacts.

Lemma lower_char_idemp c : lower_char (lower_char c) = lower_char c.
Proof. by destruct c as [[] [] [] [] [] [] [] []]. Qed.

Lemma isspace_lower_char c : isspace (lower_char c) = isspace c.
Proof. by destruct c as [[] [] [] [] [] [] [] []]. Qed.

Lemma char_in_punct_lower_char c :
  char_in ".,!?" (lower_char c) = char_in ".,!?" c.
Proof. by destruct c as [[] [] [] [] [] [] [] []]. Qed.

Lemma lower_fixed s : Forall (fun c => lower_char c = c) s -> lower s = s.
Proof.
  induction 1 as [|c s Hc _ IH]; [done|].
  unfold lower in *. simpl. by rewrite Hc, IH.
Qed.

Lemma lower_app s t : lower (s ++ t) = lower s ++ lower t.
Proof. apply map_app. Qed.

Lemma lower_join sep ts :
  lower (join sep ts) = join (lower sep) (map lower ts).
Proof.
  induction ts as [|t [|t' ts] IH]; [done..|].
  change (join sep (t :: t' :: ts)) with (t ++ sep ++ join sep (t' :: ts)).
  by rewrite !lower_app, IH.
Qed.

Lemma split_cons c s :
  split (c :: s) =
    if isspace c then split s
    else match s with
         | [] => [[c]]
         | c' :: _ => if isspace c' then [c] :: split s
                      else cons_head c (split s)
         end.
Proof. done. Qed.

Lemma split_cons_space c s : isspace c = true -> split (c :: s) = split s.
Proof. intros Hc. by rewrite split_cons, Hc. Qed.

(** The words of a text are not empty and hold no whitespace; a
    property of all characters of the text holds of those of its
    words. *)
Lemma split_words (Q : ascii -> Prop) s :
  Forall Q s ->
  Forall (fun w => w <> [] /\ Forall (fun c => Q c /\ isspace c = false) w)
    (split s).
Proof.
  induction 1 as [|c s Hc Hs IH]; [constructor|].
  rewrite split_cons. destruct (isspace c) eqn:Ec; [done|].
  assert (Hone : [c] <> [] /\ Forall (fun c => Q c /\ isspace c = false) [c]).
  { split; [done|]. by constructor. }
  destruct s as [|c' s']; [by constructor|].
  destruct (isspace c') eqn:Ec'; [by constructor|].
  destruct (split (c' :: s')) as [|w ws]; simpl; [by constructor|].
  inversion IH as [|? ? [_ Hw] Hws]; subst.
  constructor; [|done]. split; [done|]. by constructor.
Qed.

Lemma split_word t :
  t <> [] -> Forall (fun c => isspace c = false) t -> split t = [t].
Proof.
  intros Hne Ht. induction Ht as [|c t Hc Ht IH]; [done|].
  rewrite split_cons, Hc. destruct t as [|c' t']; [done|].
  inversion Ht as [|? ? Hc' _]; subst. rewrite Hc'.
  by rewrite IH.
Qed.

Lemma split_word_then t c rest :
  t <> [] -> Forall (fun c => isspace c = false) t -> isspace c = true ->
  split (t ++ c :: rest) = t :: split rest.
Proof.
  intros Hne Ht Hsp. induction Ht as [|a t Ha Ht IH]; [done|].
  change ((a :: t) ++ c :: rest) with (a :: (t ++ c :: rest)).
  rewrite split_cons, Ha. destruct t as [|a' t'].
  { cbn [app]. rewrite Hsp. f_equal. apply split_cons_space, Hsp. }
  inversion Ht as [|? ? Ha' _]; subst.
  cbn [app] in *. rewrite Ha'. by rewrite IH.
Qed.

(** Splitting undoes joining with one space, for words that are not
    empty and hold no whitespace. *)
Lemma split_join ts :
  Forall (fun t => t <> [] /\ Forall (fun c => isspace c = false) t) ts ->
  split (join " " ts) = ts.
Proof.
  induction 1 as [|t ts [Hne Ht] Hts IH]; [done|].
  destruct ts as [|t' ts']; [by apply split_word|].
  change (join " " (t :: t' :: ts'))
    with (t ++ " "%char :: join " " (t' :: ts')).
  rewrite split_word_then by done. by rewrite IH.
Qed.

Lemma lstrip_with_head p s :
  match s with [] => True | c :: _ => p c = false end ->
  lstrip_with p s = s.
Proof. destruct s as [|c s]; [done|]. simpl. by intros ->. Qed.

Lemma strip_with_id p s :
  Forall (fun c => p c = false) s -> strip_with p s = s.
Proof.
  intros Hs. unfold strip_with.
  rewrite (lstrip_with_head p s) by (by destruct Hs).
  rewrite lstrip_with_head, rev_involutive; [done|].
  apply Forall_rev in Hs. by destruct Hs.
Qed.

End PyFacts.

(** ** search-photos.py: the keyword normalizer *)

Module SearchPhotosFacts.
Import SearchPhotos.

Lemma normalize_plural_shape w :
  2 < length w ->
  exists k suf,
    normalize_plural w = take k w ++ suf
    /\ 1 <= k <= length w /\ (suf = [] \/ suf = "y").
Proof.
  intros Hlen. unfold normalize_plural, drop_last.
  assert (Hsame : exists (k : nat) (suf : str),
             w = take k w ++ suf /\ 1 <= k <= length w
             /\ (suf = [] \/ suf = "y")).
  { exists (length w), []. rewrite firstn_all, app_nil_r.
    repeat split; auto; lia. }
  destruct (length w <=? 3) eqn:E3; [done|].
  apply Nat.leb_gt in E3.
  destruct (endswith w "ies" && (4 <? length w)) eqn:Eies.
  { apply andb_prop in Eies as [_ E4%Nat.ltb_lt].
    exists (length w - 3), (list_ascii_of_string "y").
    repeat split; auto; lia. }
  destruct (endswith w "es" && (3 <? length w)).
  { destruct (endswith_any w _); [|done].
    exists (length w - 2), []. rewrite app_nil_r.
    repeat split; auto; lia. }
  destruct (endswith w "s" && (3 <? length w)); [|done].
  exists (length w - 1), []. rewrite app_nil_r.
  repeat split; auto; lia.
Qed.

Lemma normalize_plural_plain w :
  2 < length w -> Forall plain w ->
  normalize_plural w <> [] /\ Forall plain (normalize_plural w).
Proof.
  intros Hlen Hw.
  destruct (normalize_plural_shape w Hlen) as (k & suf & -> & Hk & Hsuf).
  split.
  - destruct w as [|c w]; [simpl in Hlen; lia|].
    destruct k as [|k]; [lia|]. done.
  - apply Forall_app. split; [by apply Forall_take|].
    destruct Hsuf as [-> | ->]; [constructor|].
    repeat constructor.
Qed.

Lemma strip_plain w :
  Forall plain w -> strip_chars ".,!?" w = w.
Proof.
  intros Hw. apply strip_with_id.
  eapply Forall_impl; [exact Hw|]. by intros c [[_ ?] _].
Qed.

Lemma lower_plain w : Forall plain w -> lower w = w.
Proof.
  intros Hw. apply lower_fixed.
  eapply Forall_impl; [exact Hw|]. by intros c [[? _] _].
Qed.

Lemma words_plain x :
  no_punctuation x ->
  Forall (fun w => w <> [] /\ Forall plain w) (split (lower x)).
Proof.
  intros Hx. apply split_words. unfold lower.
  apply Forall_map. eapply Forall_impl; [exact Hx|].
  intros c Hc. simpl. by rewrite lower_char_idemp, char_in_punct_lower_char.
Qed.

Lemma map_id_Forall {A} (f : A -> A) l :
  Forall (fun a => f a = a) l -> map f l = l.
Proof. induction 1 as [|a l Ha _ IH]; [done|]. simpl. by rewrite Ha, IH. Qed.

Lemma Forall_kept (P : str -> Prop) ws :
  Forall P ws ->
  Forall (fun w => P w /\ 2 < length w)
    (List.filter
       (fun word => bool_decide (word ∉ STOP_WORDS) && (2 <? length word))
       ws).
Proof.
  intros Hws. apply List.Forall_forall. intros w [Hin Hk]%filter_In.
  split.
  - revert Hin. by apply List.Forall_forall.
  - by apply andb_prop in Hk as [_ ?%Nat.ltb_lt].
Qed.

(** Without punctuation, one pass keeps the words that pass the test and
    collapses their plurals; its tokens are plain and not empty. *)
Lemma extract_keywords_plain x :
  no_punctuation x ->
  extract_keywords_from_text x =
    map normalize_plural (List.filter kept (split (lower x)))
  /\ Forall (fun t => t <> [] /\ Forall plain t)
       (extract_keywords_from_text x).
Proof.
  intros Hx. unfold extract_keywords_from_text. cbv zeta.
  pose proof (Forall_kept _ _ (words_plain x Hx)) as Hk.
  split.
  - f_equal. apply map_id_Forall.
    eapply Forall_impl; [exact Hk|]. intros w [[_ Hw] _].
    by apply strip_plain.
  - apply Forall_map, Forall_map.
    eapply Forall_impl; [exact Hk|]. intros w [[_ Hw] Hlen]. simpl.
    rewrite strip_plain by done. by apply normalize_plural_plain.
Qed.

(** The examples of the specification. *)
Example pluralization_examples :
  map normalize_plural (strs ["puppies"; "beaches"; "dogs"; "cats"; "bus"])
  = strs ["puppy"; "beach"; "dog"; "cat"; "bus"].
Proof. by vm_compute. Qed.

Example query_example :
  extract_keywords_from_text "Show me pictures of puppies and beaches"
  = strs ["puppy"; "beach"].
Proof. by vm_compute. Qed.

Lemma endswith_es_of_ies word :
  endswith word "ies" = true -> endswith word "es" = true.
Proof.
  unfold endswith. intros H%bool_decide_eq_true.
  apply bool_decide_eq_true.
  assert (Hlen : 3 <= length word).
  { apply (f_equal length) in H. rewrite length_drop in H.
    simpl in H. lia. }
  change (length (list_ascii_of_string "ies")) with 3 in H.
  change (length (list_ascii_of_string "es")) with 2.
  replace (length word - 2) with (length word - 3 + 1) by lia.
  by rewrite <- drop_drop, H.
Qed.

(** Where the "s" rule is reached, it drops the last "s": for the words
    that end in "s" and not in "es". *)
Lemma normalize_plural_drops_s word :
  3 < length word ->
  endswith word "s" = true ->
  endswith word "es" = false ->
  normalize_plural word = drop_last 1 word.
Proof.
  intros Hlen Hs Hes. unfold normalize_plural.
  destruct (length word <=? 3) eqn:E3; [apply Nat.leb_le in E3; lia|].
  destruct (endswith word "ies") eqn:Eies.
  { apply endswith_es_of_ies in Eies. congruence. }
  rewrite Hes, Hs. cbn [andb].
  by rewrite (proj2 (Nat.ltb_lt 3 (length word)) Hlen).
Qed.

(** C2 (the code departs from the claim). The claim: no token returned
    by [extract_keywords_from_text] is a stop word, and none has 2
    characters or fewer once its punctuation is stripped. The code tests
    a word against the stop words and against the length before it
    strips the punctuation: in the query below the last word, "me?", is
    not a stop word and has 3 characters, so it is kept, and it is
    returned stripped, as the stop word "me" of 2 characters. *)
Theorem C2_stop_word_and_short_token_returned :
  extract_keywords_from_text "Show me photos of me?" = strs ["me"]
  /\ ("me" : str) ∈ STOP_WORDS
  /\ length ("me" : str) <= 2.
Proof.
  split; [by vm_compute|]. split; [|simpl; lia].
  apply (bool_decide_unpack _). by vm_compute.
Qed.

(** C3 (the code departs from the claim). The claim: a word longer than
    3 characters that ends in "s" and is caught neither by the "ies"
    rule nor by the "es" rule (which asks for one of the suffixes "ches",
    "shes", "xes", "zes", "sses") loses its last "s". The code enters
    the "es" branch for every word that ends in "es", and leaves the
    word as it is when none of the suffixes matches: "horses" satisfies
    the conditions of the claim and is returned unchanged, not as
    "horse". *)
Theorem C3_es_word_keeps_its_s :
  let word : str := "horses" in
  3 < length word
  /\ endswith word "s" = true
  /\ endswith word "ies" && (4 <? length word) = false
  /\ endswith word "es" && (3 <? length word)
     && endswith_any word (strs ["ches"; "shes"; "xes"; "zes"; "sses"])
     = false
  /\ normalize_plural word = word
  /\ drop_last 1 word = "horse"
  /\ normalize_plural word <> drop_last 1 word.
Proof. cbv zeta. repeat split; try by vm_compute. simpl; lia. Qed.

(** C4 (the claim fails as stated). The claim: for an input without
    punctuation, a second pass over the joined tokens of a first pass
    yields no token that the first pass did not yield. For "glasses" the
    first pass yields "glass", and the second pass yields "glas". *)
Lemma C4_counterexample :
  let x : str := "glasses" in
  no_punctuation x
  /\ ~ (forall t,
          t ∈ extract_keywords_from_text
                (join " " (extract_keywords_from_text x)) ->
          t ∈ extract_keywords_from_text x).
Proof.
  cbv zeta. split; [by repeat constructor|]. intros H.
  specialize (H (list_ascii_of_string "glas")).
  assert (E2 : extract_keywords_from_text
                 (join " " (extract_keywords_from_text "glasses"))
               = strs ["glas"]) by (by vm_compute).
  assert (E1 : extract_keywords_from_text "glasses" = strs ["glass"])
    by (by vm_compute).
  rewrite E2, E1 in H. simpl in H.
  specialize (H (list_elem_of_here _ _)).
  apply list_elem_of_singleton in H. vm_compute in H. discriminate H.
Qed.

(** C4 (amended). For an input without the punctuation characters that
    the normalizer strips, a second pass over the tokens of a first pass
    joined with single spaces yields exactly the pluralization collapse
    of those first-pass tokens that are not stop words and are longer
    than 2 characters, in order. So every token of the second pass is
    [normalize_plural] of a token of the first pass. *)
Theorem C4_second_pass_collapses_first_pass x :
  no_punctuation x ->
  extract_keywords_from_text (join " " (extract_keywords_from_text x))
    = map normalize_plural
        (List.filter kept (extract_keywords_from_text x))
  /\ forall t,
       t ∈ extract_keywords_from_text
             (join " " (extract_keywords_from_text x)) ->
       exists t1,
         t1 ∈ extract_keywords_from_text x /\ t = normalize_plural t1.
Proof.
  intros Hx. destruct (extract_keywords_plain x Hx) as [_ Hts].
  set (ts := extract_keywords_from_text x) in *.
  assert (E : extract_keywords_from_text (join " " ts)
              = map normalize_plural (List.filter kept ts)).
  { unfold extract_keywords_from_text at 1. cbv zeta.
    assert (Hlow : lower (join " " ts) = join " " ts).
    { rewrite lower_join. f_equal. apply map_id_Forall.
      eapply Forall_impl; [exact Hts|]. intros t [_ Ht].
      by apply lower_plain. }
    rewrite Hlow, split_join.
    - f_equal. apply map_id_Forall.
      eapply Forall_impl; [exact (Forall_kept _ _ Hts)|].
      intros t [[_ Ht] _]. by apply strip_plain.
    - eapply Forall_impl; [exact Hts|]. intros t [Hne Ht].
      split; [done|]. eapply Forall_impl; [exact Ht|]. by intros c [_ ?]. }
  split; [exact E|]. intros t. rewrite E.
  intros (t1 & -> & Hin)%list_elem_of_fmap.
  exists t1. split; [|done].
  apply list_elem_of_In in Hin. apply filter_In in Hin as [Hin _].
  by apply list_elem_of_In.
Qed.

Lemma C4_second_pass_collapses_first_pass_witness :
  no_punctuation "glasses"
  /\ extract_keywords_from_text
       (join " " (extract_keywords_from_text "glasses"))
     = map normalize_plural
         (List.filter kept (extract_keywords_from_text "glasses")).
Proof.
  split; [by repeat constructor|].
  apply (C4_second_pass_collapses_first_pass "glasses").
  by repeat constructor.
Defined.

(** *** Slot resolution *)

Lemma slot_keywords_json interpreted :
  slot_keywords (slot_json interpreted) = Ok (slot_tokens interpreted).
Proof.
  destruct interpreted as [s|]; [|done].
  unfold slot_keywords, slot_tokens. simpl.
  by destruct s.
Qed.

Lemma for_slots_json slots keywords :
  for_slots (map (fun slot => (fst slot, slot_json (snd slot))) slots)
    keywords
  = Ok (keywords ++ flat_map (fun slot => slot_tokens (snd slot)) slots).
Proof.
  revert keywords. induction slots as [|[name v] slots IH]; intros keywords.
  - simpl. by rewrite app_nil_r.
  - cbn [map for_slots fst snd flat_map]. rewrite slot_keywords_json.
    cbn [mbind result_bind]. by rewrite IH, app_assoc.
Qed.

(** The body of the loop for a slot that is an object. *)
Lemma slot_keywords_dict slot :
  slot_keywords (PDict slot)
  = match lookup_key "value" slot with
    | None => Ok []
    | Some value =>
        interpreted ← get value "interpretedValue" (PStr "");
        if truthy interpreted then
          extract_keywords_from_text <$> as_str interpreted
        else Ok []
    end.
Proof.
  unfold slot_keywords. destruct slot as [|entry slot]; [done|].
  change (truthy (PDict (entry :: slot))) with true. cbv iota.
  unfold py_in, getitem. cbn [mbind result_bind].
  destruct (lookup_key "value" (entry :: slot)) as [value|].
  - by rewrite bool_decide_eq_true_2 by eauto.
  - by rewrite bool_decide_eq_false_2 by (by intros [? ?]).
Qed.

(** A slot of a Lex response adds the tokens of its interpreted value. *)
Lemma slot_keywords_lex slot_value :
  lex_slot slot_value ->
  slot_keywords slot_value = Ok (slot_tokens (interpreted_value slot_value)).
Proof.
  destruct slot_value as [| | | | |slot]; try done.
  rewrite slot_keywords_dict. unfold lex_slot, interpreted_value.
  destruct (lookup_key "value" slot) as [[| | | | |value]|]; try done.
  unfold get.
  destruct (lookup_key "interpretedValue" value) as [[| | |s| |]|];
    try done.
  intros _. cbn [from_option id mbind result_bind truthy as_str slot_tokens].
  by case_bool_decide.
Qed.

(** Whatever a slot is, the loop adds the tokens of its interpreted
    value, or raises. *)
Lemma slot_keywords_sound slot_value added :
  slot_keywords slot_value = Ok added ->
  added = slot_tokens (interpreted_value slot_value).
Proof.
  destruct slot_value as [|b|n|s|l|slot].
  - by intros [= <-].
  - by destruct b; [|intros [= <-]].
  - unfold slot_keywords. cbn [truthy]. by destruct (n =? 0)%Z; [intros [= <-]|].
  - unfold slot_keywords, py_in, getitem. cbn [mbind result_bind].
    destruct (truthy (PStr s)); [|by intros [= <-]].
    by destruct (contains "value" s); [|intros [= <-]].
  - unfold slot_keywords, py_in, getitem. cbn [mbind result_bind].
    destruct (truthy (PList l)); [|by intros [= <-]].
    by destruct (existsb (is_str "value") l); [|intros [= <-]].
  - rewrite slot_keywords_dict. unfold interpreted_value.
    destruct (lookup_key "value" slot) as [[| | | | |value]|];
      [done..| |by intros [= <-]].
    unfold get. cbn [mbind result_bind].
    destruct (lookup_key "interpretedValue" value) as [interpreted|];
      [|by intros [= <-]].
    cbn [from_option id].
    destruct interpreted as [|b|n|s|l|d]; cbn [truthy as_str slot_tokens].
    + by intros [= <-].
    + by destruct b; [|intros [= <-]].
    + by destruct (n =? 0)%Z; [intros [= <-]|].
    + case_bool_decide; cbn [negb fmap result_fmap]; by intros [= <-].
    + by destruct (negb _); [|intros [= <-]].
    + by destruct (negb _); [|intros [= <-]].
Qed.

Lemma for_slots_lex slots keywords :
  Forall (fun slot => lex_slot (snd slot)) slots ->
  for_slots slots keywords = Ok (keywords ++ resolve slots).
Proof.
  intros Hslots. revert keywords.
  induction Hslots as [|[name slot_value] slots Hslot _ IH]; intros keywords.
  - cbn [for_slots resolve flat_map]. by rewrite app_nil_r.
  - cbn [for_slots]. rewrite (slot_keywords_lex slot_value Hslot).
    cbn [mbind result_bind]. rewrite IH. unfold resolve.
    cbn [flat_map snd]. by rewrite app_assoc.
Qed.

Lemma for_slots_sound slots keywords all :
  for_slots slots keywords = Ok all -> all = keywords ++ resolve slots.
Proof.
  revert keywords.
  induction slots as [|[name slot_value] slots IH]; intros keywords.
  - cbn [for_slots resolve flat_map]. rewrite app_nil_r. by intros [= <-].
  - cbn [for_slots].
    destruct (slot_keywords slot_value) as [added|e] eqn:Hslot; [|done].
    cbn [mbind result_bind]. intros Hrest. rewrite (IH _ Hrest).
    rewrite (slot_keywords_sound slot_value added Hslot). unfold resolve.
    cbn [flat_map snd]. by rewrite app_assoc.
Qed.

(** C8. [extract_keywords_from_slots] normalizes the interpreted value of
    every slot that has one which is not empty, and appends the tokens in
    the order of the slots; a slot without a value, or with an empty or
    absent interpreted value, adds nothing. This holds for every mapping
    of names to slots of a Lex response: each slot [null] or an object,
    with any other keys, whose "value", if it has one, is an object whose
    "interpretedValue", if it has one, is a string or [null]. For slots
    of any other form the function raises, or returns these same tokens.
    In particular it holds for a mapping of names to optional
    interpreted values, written as Lex does. For the slots "animal" with
    the interpreted value "Dogs" and "color" with the empty one, the
    result is ["dog"]. *)
Theorem C8_slots_resolve_to_their_tokens :
  (forall slots : list (str * pyval),
     Forall (fun slot => lex_slot (snd slot)) slots ->
     extract_keywords_from_slots (PDict slots) = Ok (resolve slots))
  /\ (forall (slots : list (str * pyval)) keywords,
        extract_keywords_from_slots (PDict slots) = Ok keywords ->
        keywords = resolve slots)
  /\ (forall slots : list (str * option str),
        extract_keywords_from_slots (slots_json slots)
        = Ok (flat_map (fun slot => slot_tokens (snd slot)) slots))
  /\ extract_keywords_from_slots
       (PDict
          [ ("animal" : str,
             PDict [("value" : str,
                     PDict [("interpretedValue" : str, PStr "Dogs")])]);
            ("color" : str,
             PDict [("value" : str,
                     PDict [("interpretedValue" : str, PStr "")])]) ])
     = Ok (strs ["dog"]).
Proof.
  split; [|split; [|split; [|by vm_compute]]].
  - intros slots Hslots. unfold extract_keywords_from_slots.
    cbn [items mbind result_bind]. by rewrite for_slots_lex.
  - intros slots keywords. unfold extract_keywords_from_slots.
    cbn [items mbind result_bind]. intros Hrun.
    by rewrite (for_slots_sound slots [] keywords Hrun).
  - intros slots. unfold extract_keywords_from_slots, slots_json.
    cbn [items mbind result_bind]. by rewrite for_slots_json.
Qed.

Lemma C8_slots_resolve_to_their_tokens_witness :
  Forall (fun slot => lex_slot (snd slot)) lex_slots
  /\ extract_keywords_from_slots (PDict lex_slots)
     = Ok (strs ["dog"; "sandy"; "beach"]).
Proof.
  assert (Hslots : Forall (fun slot => lex_slot (snd slot)) lex_slots).
  { repeat (constructor; [exact I|]). constructor. }
  split; [exact Hslots|].
  rewrite (proj1 C8_slots_resolve_to_their_tokens lex_slots Hslots).
  vm_compute. reflexivity.
Defined.

(** *** The search and the API handler *)

Lemma try_except_default {A} (m : IO A) (a : A) net :
  exists r net', try_except m (fun _ => mret a) net = (Ok r, net').
Proof.
  unfold try_except. destruct (m net) as [[r|e] net']; [by eauto|].
  by exists a, net'.
Qed.

Lemma search_photos_returns env keywords net :
  exists results net',
    search_photos_in_opensearch env keywords net = (Ok results, net').
Proof.
  unfold search_photos_in_opensearch.
  case_bool_decide; [by exists [], net|].
  case_bool_decide; [by exists [], net|].
  apply try_except_default.
Qed.

(** Past its two guards, [search_photos_in_opensearch] sends one request,
    the search for its keywords. *)
Lemma search_photos_sends_one_request env keywords net c :
  keywords <> [] ->
  OPENSEARCH_ENDPOINT env <> [] ->
  get_credentials env = Some c ->
  exists auth,
    aws4auth (Some c) AWS_REGION SERVICE = Ok auth
    /\ sent (search_photos_in_opensearch env keywords net).2
       = sent net
         ++ [post_request
               (OPENSEARCH_ENDPOINT env ++ "/" ++ OPENSEARCH_INDEX
                ++ "/_search")
               auth
               [("Content-Type" : str, "application/json" : str)]
               (search_query keywords)].
Proof.
  intros Hk Hend Hc. eexists. split; [reflexivity|].
  unfold search_photos_in_opensearch.
  rewrite !bool_decide_eq_false_2 by done.
  unfold try_except, mbind, io_bind, lift, mret, io_ret, send.
  rewrite Hc. cbn [aws4auth]. cbv zeta.
  destruct (answer _ _ _) as [[response|e] ix]; [|reflexivity].
  destruct (raise_for_status response); [|reflexivity].
  destruct (json response) as [results_data|]; [|reflexivity].
  destruct (get results_data _ _) as [outer|]; [|reflexivity].
  destruct (get outer _ _) as [hits|]; [|reflexivity].
  destruct (iter hits) as [hit_list|]; [|reflexivity].
  by destruct (comprehension result_of_hit hit_list).
Qed.

(** C9. With no keywords, and likewise when the endpoint of the search
    index is not configured, [search_photos_in_opensearch] returns the
    empty list and leaves the network as it found it: no request is
    sent, and the index is not touched. *)
Theorem C9_no_keywords_no_request env keywords net :
  keywords = [] \/ OPENSEARCH_ENDPOINT env = [] ->
  search_photos_in_opensearch env keywords net = (Ok [], net).
Proof.
  intros H. unfold search_photos_in_opensearch.
  case_bool_decide; [done|]. case_bool_decide; [done|]. by destruct H.
Qed.

Lemma C9_no_keywords_no_request_witness :
  search_photos_in_opensearch (search_env "BOT" (Ok PNone)) [] empty_net
    = (Ok [], empty_net)
  /\ search_photos_in_opensearch
       {| OPENSEARCH_ENDPOINT := "";
          LEX_BOT_ID := "BOT";
          LEX_BOT_ALIAS_ID := "TSTALIASID";
          get_credentials := Some some_credentials;
          recognize_text := fun _ => Ok PNone;
          opensearch := sound_index |}
       (strs ["dog"]) empty_net
     = (Ok [], empty_net).
Proof.
  split.
  - apply C9_no_keywords_no_request. left. reflexivity.
  - apply C9_no_keywords_no_request. right. reflexivity.
Defined.

Lemma query_lex_bot_unavailable env user_query :
  lex_unavailable env user_query ->
  truthy (query_lex_bot env user_query) = false.
Proof.
  unfold lex_unavailable, query_lex_bot, lex_request. cbv zeta.
  intros [Hbot | Hlex].
  - by rewrite bool_decide_eq_true_2.
  - case_bool_decide; [done|].
    by destruct (recognize_text env _) as [r|e].
Qed.

Lemma query_lex_bot_answers env user_query r :
  lex_answers env user_query r -> query_lex_bot env user_query = r.
Proof.
  unfold lex_answers, query_lex_bot, lex_request. cbv zeta.
  intros (Hbot & -> & _). by rewrite bool_decide_eq_false_2.
Qed.

(** What [handle_api_search] reports for a query that is not blank. *)
Lemma handle_api_search_keywords env event params q net :
  get event "queryStringParameters" PNone = Ok params ->
  truthy params = true ->
  get params "q" (PStr "") = Ok (PStr q) ->
  strip q <> [] ->
  resolved (handle_api_search env event net).1
  = Some (let lex_response := query_lex_bot env (strip q) in
          if negb (truthy lex_response)
          then extract_keywords_from_text (strip q)
          else extract_keywords_from_lex_response lex_response).
Proof.
  intros Hparams Htruthy Hq Hne. cbv zeta.
  unfold handle_api_search, try_except, mbind, io_bind, lift.
  rewrite Hparams, Htruthy, Hq. cbn [as_str fmap result_fmap].
  rewrite bool_decide_eq_false_2 by done.
  set (keywords := if negb _ then _ else _).
  case_bool_decide as Hk; [by rewrite Hk|].
  destruct (search_photos_returns env keywords net)
    as (results & net' & ->).
  done.
Qed.

(** C5 (the claim fails as stated). The claim: when Lex is unavailable
    or returns no usable structure, the resolved keywords are the direct
    normalization of the raw query. Here Lex answers the query "dogs"
    with the fallback intent and no slots: no keyword can be extracted
    from the response, and the handler reports no keywords, whereas the
    direct normalization of the query is ["dog"]. *)
Lemma C5_counterexample :
  let env := search_env "BOT" (Ok fallback_intent) in
  query_lex_bot env "dogs" = fallback_intent
  /\ extract_keywords_from_lex_response fallback_intent = []
  /\ resolved (handle_api_search env (api_event "dogs") empty_net).1
     = Some []
  /\ extract_keywords_from_text "dogs" = strs ["dog"]
  /\ resolved (handle_api_search env (api_event "dogs") empty_net).1
     <> Some (extract_keywords_from_text "dogs").
Proof. cbv zeta. repeat split; by vm_compute. Qed.

(** C5 (amended). For a search request whose query is not blank: when
    Lex is unavailable (the bot is not configured, the call raises, or
    the answer is [None] or empty), the resolved keywords are the direct
    normalization of the stripped query text; when Lex answers with a
    response that is not empty, the resolved keywords are those
    extracted from the response, and there are none when none can be
    extracted. *)
Theorem C5_fallback_when_lex_is_unavailable env event params q net :
  get event "queryStringParameters" PNone = Ok params ->
  truthy params = true ->
  get params "q" (PStr "") = Ok (PStr q) ->
  strip q <> [] ->
  (lex_unavailable env (strip q) ->
   resolved (handle_api_search env event net).1
   = Some (extract_keywords_from_text (strip q)))
  /\ (forall r,
        lex_answers env (strip q) r ->
        resolved (handle_api_search env event net).1
        = Some (extract_keywords_from_lex_response r)).
Proof.
  intros Hparams Htruthy Hq Hne.
  rewrite (handle_api_search_keywords env event params q net) by done.
  cbv zeta. split.
  - intros Hun. by rewrite query_lex_bot_unavailable.
  - intros r Hr. rewrite (query_lex_bot_answers env (strip q) r Hr).
    destruct Hr as (_ & _ & ->). done.
Qed.

Lemma C5_fallback_when_lex_is_unavailable_witness :
  resolved (handle_api_search (search_env "" (Raise ClientError))
              (api_event " Dogs ") empty_net).1
  = Some (strs ["dog"])
  /\ resolved (handle_api_search (search_env "BOT" (Ok cats_intent))
                 (api_event " Dogs ") empty_net).1
     = Some (strs ["cat"]).
Proof.
  split.
  - apply (proj1 (C5_fallback_when_lex_is_unavailable
                    (search_env "" (Raise ClientError)) (api_event " Dogs ")
                    (PDict [("q" : str, PStr " Dogs ")]) " Dogs " empty_net
                    eq_refl eq_refl eq_refl
                    ltac:(vm_compute; discriminate))).
    left. reflexivity.
  - apply (proj2 (C5_fallback_when_lex_is_unavailable
                    (search_env "BOT" (Ok cats_intent)) (api_event " Dogs ")
                    (PDict [("q" : str, PStr " Dogs ")]) " Dogs " empty_net
                    eq_refl eq_refl eq_refl
                    ltac:(vm_compute; discriminate))
             cats_intent).
    repeat split. vm_compute. discriminate.
Defined.

End SearchPhotosFacts.

(** ** index-photos.py: labels, fingerprint and indexing *)

Module IndexPhotosFacts.
Import IndexPhotos.

(** *** Splitting at commas and trimming *)

Lemma split_on_cons sep c s :
  split_on sep (c :: s) =
    if bool_decide (c = sep) then [] :: split_on sep s
    else cons_head c (split_on sep s).
Proof. done. Qed.

Lemma split_on_not_nil sep s : split_on sep s <> [].
Proof.
  destruct s as [|c s]; [done|]. rewrite split_on_cons.
  case_bool_decide; [done|]. by destruct (split_on sep s).
Qed.

(** The pieces, put together again with the separator, are the string. *)
Lemma split_on_join sep s : join [sep] (split_on sep s) = s.
Proof.
  induction s as [|c s IH]; [done|]. rewrite split_on_cons.
  pose proof (split_on_not_nil sep s) as Hne.
  case_bool_decide as Hc.
  - subst c. destruct (split_on sep s) as [|p ps]; [done|].
    change (join [sep] ([] :: p :: ps)) with (sep :: join [sep] (p :: ps)).
    by rewrite IH.
  - destruct (split_on sep s) as [|p ps]; [done|].
    rewrite <- IH. by destruct ps.
Qed.

(** No piece holds the separator. *)
Lemma split_on_pieces sep s : Forall (fun p => sep ∉ p) (split_on sep s).
Proof.
  induction s as [|c s IH].
  - repeat constructor. by intros ?%elem_of_nil.
  - rewrite split_on_cons. case_bool_decide as Hc.
    + constructor; [|done]. by intros ?%elem_of_nil.
    + destruct (split_on sep s) as [|p ps]; simpl.
      * repeat constructor. by intros ->%list_elem_of_singleton.
      * inversion IH; subst. constructor; [|done].
        intros [->|?]%elem_of_cons; done.
Qed.

Lemma lstrip_with_spec p s :
  exists l,
    s = l ++ lstrip_with p s
    /\ Forall (fun c => p c = true) l
    /\ match lstrip_with p s with [] => True | c :: _ => p c = false end.
Proof.
  induction s as [|c s (l & Hs & Hl & Hhead)]; [by exists []|].
  simpl. destruct (p c) eqn:Hc.
  - exists (c :: l). split; [by rewrite Hs at 1|]. split; [by constructor|done].
  - exists []. by rewrite Hc.
Qed.

(** Trimming removes a run of whitespace at each end, and what remains
    neither starts nor ends with whitespace. *)
Lemma strip_spec s :
  exists l r,
    s = l ++ strip s ++ r
    /\ Forall (fun c => isspace c = true) l
    /\ Forall (fun c => isspace c = true) r
    /\ match strip s with [] => True | c :: _ => isspace c = false end
    /\ match rev (strip s) with [] => True | c :: _ => isspace c = false end.
Proof.
  unfold strip, strip_with.
  destruct (lstrip_with_spec isspace s) as (l & Hs & Hl & Hhead).
  set (s1 := lstrip_with isspace s) in *.
  destruct (lstrip_with_spec isspace (rev s1)) as (r & Hr & Hr' & Hlast).
  set (s2 := lstrip_with isspace (rev s1)) in *.
  exists l, (rev r). rewrite rev_involutive.
  assert (Hs1 : s1 = rev s2 ++ rev r).
  { by rewrite <- rev_app_distr, <- Hr, rev_involutive. }
  split; [by rewrite <- Hs1|]. split; [done|].
  split; [by apply Forall_rev|]. split; [|done].
  destruct s2 as [|c s2]; [done|].
  destruct (rev (c :: s2)) as [|a t] eqn:Erev; [done|].
  rewrite Hs1 in Hhead. exact Hhead.
Qed.

(** *** The labels of a document *)

Lemma comprehension_names names :
  comprehension (fun label => getitem label "Name")
    (map (fun name => PDict [("Name" : str, PStr name)]) names)
  = Ok (map PStr names).
Proof.
  induction names as [|n names IH]; [done|].
  cbn [map comprehension]. rewrite IH. done.
Qed.

Lemma detect_labels_names env bucket key names :
  rekognition env bucket key = Ok (labels_response names) ->
  detect_labels env (PStr bucket) (PStr key) = map PStr names.
Proof.
  intros Hr. unfold detect_labels. rewrite Hr.
  unfold labels_response. cbn [mbind result_bind].
  change (getitem (PDict _) "Labels")
    with (Ok (PList (map (fun name => PDict [("Name" : str, PStr name)])
                       names))).
  cbn [mbind result_bind iter]. by rewrite comprehension_names.
Qed.

Lemma get_custom_labels_csv env bucket key :
  get_custom_labels env (PStr bucket) (PStr key)
  = aggregate [] (custom_labels_csv env bucket key).
Proof.
  unfold get_custom_labels, s3_object, custom_labels_csv, aggregate.
  destruct (s3_objects env !! (bucket, key)) as [obj|]; [|done].
  cbn [mbind result_bind option_bind or_else app].
  destruct (Metadata obj !! _) as [csv|]; [|done].
  cbn [default from_option id]. by destruct csv.
Qed.

(** C7. The labels of the document that [handle_s3_indexing] builds are
    the vision labels followed by the labels of the metadata string: its
    pieces between commas, each trimmed of whitespace, in order, and
    nothing when the string is empty or absent (or the object is). No
    label is dropped as a duplicate. [split_on_join], [split_on_pieces]
    and [strip_spec] say what splitting and trimming are. *)
Theorem C7_labels_are_vision_then_metadata env bucket key timestamp
    (vision : list str) :
  detect_labels env (PStr bucket) (PStr key) = map PStr vision ->
  getitem (photo_document env (PStr bucket) key timestamp) "labels"
  = Ok (PList
          (map PStr (aggregate vision (custom_labels_csv env bucket key)))).
Proof.
  intros Hvision. unfold photo_document. cbv zeta.
  rewrite Hvision, get_custom_labels_csv.
  unfold aggregate. cbn [app]. rewrite map_app. done.
Qed.

Lemma C7_labels_are_vision_then_metadata_witness :
  detect_labels (index_env sound_index) (PStr "album")
    (PStr "vacation/beach1.jpg")
  = map PStr (strs ["Beach"; "Ocean"])
  /\ getitem beach1_document "labels"
     = Ok (PList (map PStr (strs ["Beach"; "Ocean"; "Sunset"; "Family"]))).
Proof.
  split; [by vm_compute|].
  apply (C7_labels_are_vision_then_metadata (index_env sound_index)
           "album" "vacation/beach1.jpg" "2024-05-01T10:00:00"
           (strs ["Beach"; "Ocean"])).
  by vm_compute.
Defined.

(** *** The fingerprint *)

Lemma get_photo_hash_stored env bucket key obj :
  s3_objects env !! (bucket, key) = Some obj ->
  get_photo_hash env (PStr bucket) (PStr key)
  = Ok (take 12 (MD5.hexdigest (take 1024 (Body obj)))).
Proof.
  intros Hobj. unfold get_photo_hash, get_object_head, s3_object.
  by rewrite Hobj.
Qed.

Lemma hexdigest_length content : length (MD5.hexdigest content) = 32.
Proof.
  unfold MD5.hexdigest, MD5.hex, MD5.digest. cbv zeta.
  destruct (MD5.chunks _ _ _) as [[[A B] C] D].
  assert (H2 : forall bs : list Z,
             length (flat_map
                       (fun b => [hex_digit (Z.to_nat (b / 16));
                                  hex_digit (Z.to_nat (b mod 16))]) bs)
             = 2 * length bs).
  { induction bs as [|b bs IH]; [done|]. simpl. rewrite IH. lia. }
  rewrite H2. unfold MD5.le_bytes.
  by rewrite !length_app, !length_map, !length_seq.
Qed.

(** The fingerprint of a stored object has 12 characters. *)
Lemma get_photo_hash_length env bucket key obj :
  s3_objects env !! (bucket, key) = Some obj ->
  exists h,
    get_photo_hash env (PStr bucket) (PStr key) = Ok h /\ length h = 12.
Proof.
  intros Hobj. rewrite (get_photo_hash_stored _ _ _ _ Hobj).
  eexists. split; [reflexivity|].
  rewrite length_take, hexdigest_length. lia.
Qed.

(** C6. Two stored objects that agree on their first 1024 bytes have the
    same fingerprint, the first 12 hexadecimal digits of the MD5 digest
    of those bytes, and so the same document identity, whatever follows
    the first 1024 bytes. *)
Theorem C6_fingerprint_of_first_1024_bytes env1 bucket1 key1 obj1
    env2 bucket2 key2 obj2 :
  s3_objects env1 !! (bucket1, key1) = Some obj1 ->
  s3_objects env2 !! (bucket2, key2) = Some obj2 ->
  take 1024 (Body obj1) = take 1024 (Body obj2) ->
  get_photo_hash env1 (PStr bucket1) (PStr key1)
  = get_photo_hash env2 (PStr bucket2) (PStr key2)
  /\ document_id <$> get_photo_hash env1 (PStr bucket1) (PStr key1)
     = document_id <$> get_photo_hash env2 (PStr bucket2) (PStr key2)
  /\ get_photo_hash env1 (PStr bucket1) (PStr key1)
     = Ok (take 12 (MD5.hexdigest (take 1024 (Body obj1)))).
Proof.
  intros H1 H2 Hsame.
  rewrite (get_photo_hash_stored _ _ _ _ H1).
  rewrite (get_photo_hash_stored _ _ _ _ H2).
  by rewrite Hsame.
Qed.

Lemma C6_fingerprint_of_first_1024_bytes_witness :
  Body beach1 <> Body beach2
  /\ get_photo_hash (index_env sound_index) (PStr "album")
       (PStr "vacation/beach1.jpg")
     = get_photo_hash (index_env sound_index) (PStr "album")
         (PStr "vacation/beach2.jpg").
Proof.
  split.
  - intros H. apply (f_equal length) in H. vm_compute in H. discriminate H.
  - apply (C6_fingerprint_of_first_1024_bytes
             (index_env sound_index) "album" "vacation/beach1.jpg" beach1
             (index_env sound_index) "album" "vacation/beach2.jpg" beach2).
    + vm_compute. reflexivity.
    + vm_compute. reflexivity.
    + vm_compute. reflexivity.
Defined.

(** *** Indexing *)

Lemma answer_head sv url auth ix :
  (answer sv (head_request url auth) ix).2 = ix.
Proof. unfold answer. by destruct (fault sv _). Qed.

Lemma check_answered env auth h net :
  fault (opensearch env) (check_request env auth h) = None ->
  answered env (check_request env auth h) net
  = Ok (no_body (if index net !! identity_url env h is Some _
                 then 200 else 404)).
Proof. intros Hcheck. unfold answered, answer. by rewrite Hcheck. Qed.

(** The run of [index_photo] once it gets as far as the index. *)
Lemma index_photo_run env doc auth h net :
  reaches_index env doc auth h ->
  index_photo env doc net =
    let checked :=
      {| index := index net;
         sent := sent net ++ [check_request env auth h] |} in
    match answered env (check_request env auth h) net with
    | Raise _ => (Ok (Some false), checked)
    | Ok check =>
        if (status_code check =? 200)%Z then (Ok (Some false), checked)
        else
          let w := answer (opensearch env) (write_request env auth h doc)
                     (index net) in
          (Ok (Some match w.1 with
                    | Ok r => bool_decide (status_code r ∈ [200; 201]%Z)
                    | Raise _ => false
                    end),
           {| index := w.2;
              sent := sent checked ++ [write_request env auth h doc] |})
    end.
Proof.
  intros (Hend & Hauth & bucket & key & Hb & Hk & Hh).
  unfold index_photo. rewrite bool_decide_eq_false_2 by done.
  unfold try_except, mbind, io_bind, lift, mret, io_ret.
  rewrite Hauth, Hb, Hk, Hh. cbv zeta.
  unfold answered, check_request, write_request, identity_url, send.
  pose proof (answer_head (opensearch env)
                (document_url env (document_id h)) auth (index net)) as Hix.
  destruct (answer (opensearch env) (head_request _ auth) (index net))
    as [[check|e] ix]; simpl in Hix; subst ix; cbn [fst snd index sent];
    [|reflexivity].
  destruct (status_code check =? 200)%Z; [reflexivity|].
  cbv beta iota. cbn [index sent].
  destruct (answer (opensearch env) (put_request _ auth doc json_headers)
              (index net)) as [[r|e] ix']; cbn [fst snd]; [|reflexivity].
  case_bool_decide; reflexivity.
Qed.

(** Proves [reaches_index] in a concrete world by evaluation. *)
Ltac reaches_by_evaluation bucket key :=
  split; [vm_compute; discriminate|];
  split; [vm_compute; reflexivity|];
  exists (PStr bucket), (PStr key);
  split; [vm_compute; reflexivity|];
  split; vm_compute; reflexivity.

(** C1 (the claim fails as stated). The claim: when the identity exists
    in the index, [index_photo] writes nothing and reports the duplicate;
    when it is absent, [index_photo] performs one write and reports the
    insertion. First, the identity is absent and the index refuses the
    write with the status 503: one write is sent under the identity, and
    the result is [False], not [True]. Second, the identity exists and
    the index refuses the existence check with the status 403: the
    document is written again, and the result is [True]. *)
Lemma C1_counterexample :
  let doc := beach1_document in
  let h : str := "9a8918b11878" in
  (let env := index_env refusing_writes in
   reaches_index env doc signed h
   /\ index empty_net !! identity_url env h = None
   /\ sent (index_photo env doc empty_net).2
      = [check_request env signed h; write_request env signed h doc]
   /\ (index_photo env doc empty_net).1 = Ok (Some false)
   /\ (index_photo env doc empty_net).1 <> Ok (Some true))
  /\ (let env := index_env forbidden_checks in
      let once := (index_photo (index_env sound_index) doc empty_net).2 in
      reaches_index env doc signed h
      /\ index once !! identity_url env h = Some doc
      /\ sent (index_photo env doc once).2
         = sent once
           ++ [check_request env signed h; write_request env signed h doc]
      /\ (index_photo env doc once).1 = Ok (Some true)
      /\ (index_photo env doc once).1 <> Ok (Some false)).
Proof.
  cbv zeta. split.
  - split; [reaches_by_evaluation "album" "vacation/beach1.jpg"|].
    split; [vm_compute; reflexivity|]. split; [vm_compute; reflexivity|].
    split; [vm_compute; reflexivity|]. vm_compute. discriminate.
  - split; [reaches_by_evaluation "album" "vacation/beach1.jpg"|].
    split; [vm_compute; reflexivity|]. split; [vm_compute; reflexivity|].
    split; [vm_compute; reflexivity|]. vm_compute. discriminate.
Qed.

(** C1 (amended). For an invocation of [index_photo] that gets as far
    as the index and whose existence check the index answers: if the
    identity of the document exists in the index, the check is the only
    request, nothing is written and the result is [False]; if the
    identity is absent, exactly one write follows the check, keyed by
    the identity and carrying the document, and the result is [True]
    when the write is answered with the status 200 or 201, as it is
    when the index takes it, and [False] when the write is refused or
    not answered, which leaves the index as it was. *)
Theorem C1_check_then_at_most_one_write env doc auth h net :
  reaches_index env doc auth h ->
  fault (opensearch env) (check_request env auth h) = None ->
  (is_Some (index net !! identity_url env h) ->
   index_photo env doc net
   = (Ok (Some false),
      {| index := index net;
         sent := sent net ++ [check_request env auth h] |}))
  /\ (index net !! identity_url env h = None ->
      exists inserted ix',
        index_photo env doc net
        = (Ok (Some inserted),
           {| index := ix';
              sent := sent net ++ [check_request env auth h;
                                   write_request env auth h doc] |})
        /\ match fault (opensearch env) (write_request env auth h doc) with
           | None =>
               inserted = true
               /\ ix' = <[identity_url env h := doc]> (index net)
           | Some (Ok r) =>
               inserted = bool_decide (status_code r ∈ [200; 201]%Z)
               /\ ix' = index net
           | Some (Raise _) => inserted = false /\ ix' = index net
           end).
Proof.
  intros Hreach Hcheck.
  rewrite (index_photo_run env doc auth h net Hreach). cbv zeta.
  rewrite (check_answered env auth h net Hcheck).
  split.
  - intros [d Hd]. by rewrite Hd.
  - intros Hnone. rewrite Hnone. cbn [status_code no_body Z.eqb Pos.eqb].
    eexists _, _. cbn [sent]. rewrite <- app_assoc.
    split; [reflexivity|]. unfold answer.
    destruct (fault (opensearch env) (write_request env auth h doc))
      as [[r|e]|]; cbn [fst snd]; [done..|].
    cbn [req_method write_request put_request req_json req_url fst snd].
    rewrite Hnone. cbn [status_code no_body]. split; [|done].
    apply bool_decide_eq_true_2. set_solver.
Qed.

Lemma C1_check_then_at_most_one_write_witness :
  let env := index_env sound_index in
  let doc := beach1_document in
  let h : str := "9a8918b11878" in
  let once := (index_photo env doc empty_net).2 in
  index_photo env doc empty_net
  = (Ok (Some true),
     {| index := <[identity_url env h := doc]> ∅;
        sent := [check_request env signed h;
                 write_request env signed h doc] |})
  /\ index_photo env doc once
     = (Ok (Some false),
        {| index := index once;
           sent := sent once ++ [check_request env signed h] |}).
Proof.
  cbv zeta.
  assert (Hreach : reaches_index (index_env sound_index)
                     beach1_document signed "9a8918b11878").
  { reaches_by_evaluation "album" "vacation/beach1.jpg". }
  split.
  - destruct (proj2 (C1_check_then_at_most_one_write
                       (index_env sound_index) beach1_document
                       signed "9a8918b11878" empty_net Hreach eq_refl)
                eq_refl)
      as (inserted & ix' & Hrun & Hinserted & Hix).
    rewrite Hrun, Hinserted, Hix. reflexivity.
  - apply (proj1 (C1_check_then_at_most_one_write
                    (index_env sound_index) beach1_document
                    signed "9a8918b11878" _ Hreach eq_refl)).
    apply (bool_decide_unpack _). vm_compute. exact I.
Defined.

(** *** Failures and duplicates *)

Lemma index_photo_unreached env doc net e :
  OPENSEARCH_ENDPOINT env <> [] ->
  (auth ← aws4auth (get_credentials env) AWS_REGION SERVICE;
   bucket ← getitem doc "bucket";
   key ← getitem doc "objectKey";
   get_photo_hash env bucket key) = Raise e ->
  index_photo env doc net = (Ok (Some false), net).
Proof.
  intros Hend Hraise. unfold index_photo.
  rewrite bool_decide_eq_false_2 by done.
  unfold try_except, mbind, io_bind, lift, mret, io_ret.
  destruct (aws4auth _ _ _) as [auth|]; [|reflexivity].
  destruct (getitem doc "bucket") as [bucket|]; [|reflexivity].
  destruct (getitem doc "objectKey") as [key|]; [|reflexivity].
  cbn [mbind result_bind] in Hraise. by rewrite Hraise.
Qed.

(** C10. [index_photo] never raises: it returns a value for every
    document, in every world. Once the endpoint is configured, each
    failure (no credentials, no fingerprint, an existence check or a
    write that is not answered, a write answered with a status other
    than 200 and 201) and the duplicate give the same result [False]:
    the result does not tell a duplicate from a failed write. *)
Theorem C10_failures_and_duplicates_return_false env doc net :
  exists r net',
    index_photo env doc net = (Ok r, net')
    /\ (OPENSEARCH_ENDPOINT env <> [] ->
        failure_or_duplicate env doc net ->
        r = Some false).
Proof.
  destruct (decide (OPENSEARCH_ENDPOINT env = [])) as [Hend|Hend].
  { exists None, net. split; [|done].
    unfold index_photo. by rewrite bool_decide_eq_true_2. }
  assert (Hok : exists r net', index_photo env doc net = (Ok r, net')).
  { unfold index_photo. rewrite bool_decide_eq_false_2 by done.
    unfold try_except at 1.
    match goal with
    | |- context [match ?m net with _ => _ end] =>
        destruct (m net) as [[r|e] net']
    end; [by eauto|]. by exists (Some false), net'. }
  destruct Hok as (r & net' & Hrun). exists r, net'.
  split; [done|]. intros _ Hfail.
  assert (Hfalse : (index_photo env doc net).1 = Ok (Some false));
    [|rewrite Hrun in Hfalse; by injection Hfalse].
  destruct Hfail as
    [ Hcreds | e Hraise | auth h e Hreach Hcheck
    | auth h check Hreach Hcheck Hstatus
    | auth h check e Hreach Hcheck Hstatus Hwrite
    | auth h check w Hreach Hcheck Hstatus Hwrite Hrefused ].
  - rewrite (index_photo_unreached env doc net AttributeError Hend);
      [done|]. by rewrite Hcreds.
  - destruct (aws4auth (get_credentials env) AWS_REGION SERVICE)
      as [auth|e'] eqn:Hauth.
    + rewrite (index_photo_unreached env doc net e Hend); [done|].
      by rewrite Hauth.
    + rewrite (index_photo_unreached env doc net e' Hend); [done|].
      by rewrite Hauth.
  - rewrite (index_photo_run env doc auth h net Hreach). cbv zeta.
    by rewrite Hcheck.
  - rewrite (index_photo_run env doc auth h net Hreach). cbv zeta.
    rewrite Hcheck, Hstatus. done.
  - rewrite (index_photo_run env doc auth h net Hreach). cbv zeta.
    rewrite Hcheck. apply Z.eqb_neq in Hstatus. rewrite Hstatus.
    unfold answered in Hwrite. cbn [fst]. by rewrite Hwrite.
  - rewrite (index_photo_run env doc auth h net Hreach). cbv zeta.
    rewrite Hcheck. apply Z.eqb_neq in Hstatus. rewrite Hstatus.
    unfold answered in Hwrite. cbn [fst]. rewrite Hwrite.
    by rewrite bool_decide_eq_false_2.
Qed.

Lemma C10_failures_and_duplicates_return_false_witness :
  let doc := beach1_document in
  let once := (index_photo (index_env sound_index) doc empty_net).2 in
  (index_photo (index_env refusing_writes) doc empty_net).1
  = Ok (Some false)
  /\ (index_photo (index_env sound_index) doc once).1 = Ok (Some false).
Proof.
  cbv zeta. split.
  - destruct (C10_failures_and_duplicates_return_false
                (index_env refusing_writes) beach1_document
                empty_net) as (r & net' & Hrun & Hfalse).
    rewrite Hrun. cbn [fst]. f_equal. apply Hfalse.
    + vm_compute. discriminate.
    + apply (write_refused _ _ _ signed "9a8918b11878"
               (no_body 404) (no_body 503)).
      * reaches_by_evaluation "album" "vacation/beach1.jpg".
      * vm_compute. reflexivity.
      * vm_compute. discriminate.
      * vm_compute. reflexivity.
      * intros Hin. apply (bool_decide_pack _) in Hin.
        vm_compute in Hin. exact Hin.
  - destruct (C10_failures_and_duplicates_return_false
                (index_env sound_index) beach1_document
                (index_photo (index_env sound_index)
                   beach1_document empty_net).2)
      as (r & net' & Hrun & Hfalse).
    rewrite Hrun. cbn [fst]. f_equal. apply Hfalse.
    + vm_compute. discriminate.
    + apply (duplicate _ _ _ signed "9a8918b11878" (no_body 200)).
      * reaches_by_evaluation "album" "vacation/beach1.jpg".
      * vm_compute. reflexivity.
      * reflexivity.
Defined.

End IndexPhotosFacts.

(** ** search-photos.py: further properties *)

Module SearchPhotosMore.
Import SearchPhotos SearchPhotosHandlers.

(** *** The normalizer *)

Lemma normalize_plural_cut word :
  exists (k : nat) (suffix : str),
    normalize_plural word = take k word ++ suffix
    /\ ((k = length word /\ suffix = [])
        \/ (3 < length word
            /\ ((k = length word - 3 /\ suffix = "y")
                \/ (k = length word - 2 /\ suffix = [])
                \/ (k = length word - 1 /\ suffix = [])))).
Proof.
  unfold normalize_plural, drop_last.
  assert (Hsame : exists (k : nat) (suffix : str),
             word = take k word ++ suffix
             /\ ((k = length word /\ suffix = [])
                 \/ (3 < length word
                     /\ ((k = length word - 3 /\ suffix = "y")
                         \/ (k = length word - 2 /\ suffix = [])
                         \/ (k = length word - 1 /\ suffix = []))))).
  { exists (length word), []. rewrite firstn_all, app_nil_r. auto. }
  destruct (length word <=? 3) eqn:E3; [done|].
  apply Nat.leb_gt in E3.
  destruct (endswith word "ies" && (4 <? length word)).
  { exists (length word - 3), (list_ascii_of_string "y"). auto 7. }
  destruct (endswith word "es" && (3 <? length word)).
  { destruct (endswith_any word _); [|done].
    exists (length word - 2), []. rewrite app_nil_r. auto 7. }
  destruct (endswith word "s" && (3 <? length word)); [|done].
  exists (length word - 1), []. rewrite app_nil_r. auto 7.
Qed.

(** X1. [normalize_plural] never lengthens a word and shortens it by at
    most two characters; it leaves words of at most 3 characters as they
    are, changes nothing before the last three characters, and returns
    the empty word only for the empty word. *)
Theorem X1_normalize_plural_lengths word :
  length word - 2 <= length (normalize_plural word) <= length word
  /\ (normalize_plural word = word \/ 3 < length word)
  /\ take (length word - 3) (normalize_plural word)
     = take (length word - 3) word
  /\ (normalize_plural word = [] <-> word = []).
Proof.
  destruct (normalize_plural_cut word) as (k & suffix & E & Hk).
  assert (Hlen : length (normalize_plural word) = Nat.min k (length word)
                                                  + length suffix).
  { by rewrite E, length_app, length_take. }
  assert (Hpre : take (length word - 3) (normalize_plural word)
                 = take (length word - 3) word).
  { rewrite E, take_app_le by (rewrite length_take; lia).
    rewrite take_take. f_equal. lia. }
  split; [|split; [|split; [exact Hpre|]]].
  - destruct Hk as [[-> ->] | (H3 & [[-> ->] | [[-> ->] | [-> ->]]])];
      simpl in Hlen; lia.
  - destruct Hk as [[-> ->] | (H3 & _)]; [left|by right].
    by rewrite E, firstn_all, app_nil_r.
  - split.
    + intros Hnil. rewrite Hnil in Hlen. simpl in Hlen.
      destruct word as [|c word]; [done|]. simpl in Hlen.
      destruct Hk as [[-> ->] | (H3 & [[-> ->] | [[-> ->] | [-> ->]]])];
        simpl in *; lia.
    + by intros ->.
Qed.

Lemma Forall_lstrip_with (P : ascii -> Prop) p s :
  Forall P s -> Forall P (lstrip_with p s).
Proof.
  induction 1 as [|c s Hc Hs IH]; [done|]. simpl.
  destruct (p c); [done|]. by constructor.
Qed.

Lemma Forall_strip_with (P : ascii -> Prop) p s :
  Forall P s -> Forall P (strip_with p s).
Proof.
  intros Hs. unfold strip_with.
  by apply Forall_rev, Forall_lstrip_with, Forall_rev, Forall_lstrip_with.
Qed.

Lemma Forall_normalize_plural (P : ascii -> Prop) word :
  P "y"%char -> Forall P word -> Forall P (normalize_plural word).
Proof.
  intros Hy Hw.
  destruct (normalize_plural_cut word) as (k & suffix & -> & Hk).
  apply Forall_app. split; [by apply Forall_take|].
  destruct Hk as [[_ ->] | (_ & [[_ ->] | [[_ ->] | [_ ->]]])];
    repeat constructor; done.
Qed.

(** X2. Whatever the text, every token that [extract_keywords_from_text]
    returns is in lower case (lowering it again changes nothing) and
    holds no whitespace. *)
Theorem X2_tokens_are_lower_case_words text :
  Forall (fun t => lower t = t /\ Forall (fun c => isspace c = false) t)
    (extract_keywords_from_text text).
Proof.
  unfold extract_keywords_from_text. cbv zeta.
  apply Forall_map, Forall_map.
  assert (Hwords : Forall
            (fun w => w <> []
                      /\ Forall (fun c => lower_char c = c
                                          /\ isspace c = false) w)
            (split (lower text))).
  { apply split_words. unfold lower. apply Forall_map.
    apply Forall_true. intros c. simpl. apply lower_char_idemp. }
  apply List.Forall_forall. intros w [Hin _]%filter_In.
  eapply List.Forall_forall in Hwords as [_ Hw]; [|exact Hin]. simpl.
  assert (Ht : Forall (fun c => lower_char c = c /\ isspace c = false)
                 (normalize_plural (strip_chars ".,!?" w))).
  { apply Forall_normalize_plural; [done|]. by apply Forall_strip_with. }
  split.
  - apply lower_fixed. eapply Forall_impl; [exact Ht|]. by intros c [? _].
  - eapply Forall_impl; [exact Ht|]. by intros c [_ ?].
Qed.

Lemma split_space_l l s :
  Forall (fun c => isspace c = true) l -> split (l ++ s) = split s.
Proof.
  induction 1 as [|c l Hc _ IH]; [done|].
  cbn [app]. by rewrite split_cons_space.
Qed.

Lemma split_spaces r :
  Forall (fun c => isspace c = true) r -> split r = [].
Proof. intros Hr. by rewrite <- (app_nil_r r), split_space_l. Qed.

Lemma split_space_r s r :
  Forall (fun c => isspace c = true) r -> split (s ++ r) = split s.
Proof.
  intros Hr. induction s as [|c s IH]; [by apply split_spaces|].
  cbn [app]. rewrite !split_cons. destruct (isspace c); [done|].
  destruct s as [|c' s'].
  - cbn [app]. destruct Hr as [|c' r Hc' Hr]; [done|].
    rewrite Hc'. f_equal. rewrite split_cons_space by done.
    by apply split_spaces.
  - cbn [app] in *. by rewrite IH.
Qed.

Lemma split_strip s : split (strip s) = split s.
Proof.
  destruct (IndexPhotosFacts.strip_spec s) as (l & r & Hs & Hl & Hr & _).
  rewrite Hs at 2. by rewrite split_space_l, split_space_r.
Qed.

Lemma lower_lstrip_with s :
  lower (lstrip_with isspace s) = lstrip_with isspace (lower s).
Proof.
  induction s as [|c s IH]; [done|]. unfold lower in *. simpl.
  rewrite isspace_lower_char. by destruct (isspace c).
Qed.

Lemma lower_strip s : lower (strip s) = strip (lower s).
Proof.
  unfold strip, strip_with, lower.
  rewrite map_rev. fold (lower (lstrip_with isspace (rev (lstrip_with isspace s)))).
  rewrite lower_lstrip_with. unfold lower. rewrite map_rev.
  fold (lower (lstrip_with isspace s)). by rewrite lower_lstrip_with.
Qed.

(** X3. The keywords of a text depend neither on the whitespace around
    it nor on the case of its letters: [handle_api_search] strips the
    query first (line 138), and that changes no keyword. *)
Theorem X3_keywords_ignore_case_and_margins text :
  extract_keywords_from_text (strip text) = extract_keywords_from_text text
  /\ extract_keywords_from_text (lower text)
     = extract_keywords_from_text text.
Proof.
  unfold extract_keywords_from_text. cbv zeta. split.
  - by rewrite lower_strip, split_strip.
  - assert (E : lower (lower text) = lower text); [|by rewrite E].
    unfold lower. rewrite map_map. apply map_ext. intros c.
    apply lower_char_idemp.
Qed.

(** X4. A text whose words are all stop words or have at most 2
    characters, in particular an empty or blank text, has no keywords. *)
Theorem X4_only_stop_words_no_keywords text :
  Forall (fun w => w ∈ STOP_WORDS \/ length w <= 2) (split (lower text)) ->
  extract_keywords_from_text text = [].
Proof.
  intros Hw. unfold extract_keywords_from_text. cbv zeta.
  assert (E : List.filter
                (fun word => bool_decide (word ∉ STOP_WORDS)
                             && (2 <? length word))
                (split (lower text)) = []); [|by rewrite E].
  induction Hw as [|w ws Hw _ IH]; [done|]. simpl.
  destruct Hw as [Hstop | Hshort].
  - rewrite bool_decide_eq_false_2 by (intros Hn; exact (Hn Hstop)).
    exact IH.
  - rewrite (proj2 (Nat.ltb_ge 2 (length w))) by lia.
    by rewrite andb_false_r.
Qed.

Lemma X4_only_stop_words_no_keywords_witness :
  extract_keywords_from_text " Show me the photos of it " = []
  /\ extract_keywords_from_text "" = [].
Proof.
  split.
  - apply X4_only_stop_words_no_keywords.
    vm_compute split.
    repeat (constructor;
            [first [ left; apply (bool_decide_unpack _); vm_compute; exact I
                   | right; simpl; lia ]|]).
    constructor.
  - apply X4_only_stop_words_no_keywords. vm_compute split. constructor.
Defined.

(** *** The search *)

Lemma answer_keeps_index sv rq ix :
  req_method rq <> PUT -> (answer sv rq ix).2 = ix.
Proof.
  intros Hm. unfold answer. destruct (fault sv rq); [done|].
  by destruct (req_method rq).
Qed.

Lemma search_photos_proceeds env keywords net auth :
  keywords <> [] ->
  OPENSEARCH_ENDPOINT env <> [] ->
  aws4auth (get_credentials env) AWS_REGION SERVICE = Ok auth ->
  search_photos_in_opensearch env keywords net
  = (Ok (results_of
           (answer (opensearch env)
              (search_request env auth keywords) (index net)).1),
     {| index := index net;
        sent := sent net ++ [search_request env auth keywords] |}).
Proof.
  intros Hk Hend Hauth. unfold search_photos_in_opensearch.
  rewrite !bool_decide_eq_false_2 by done.
  unfold try_except, mbind, io_bind, lift, mret, io_ret, send.
  rewrite Hauth. cbv zeta.
  fold (search_url env). fold (search_request env auth keywords).
  pose proof (answer_keeps_index (opensearch env)
                (search_request env auth keywords) (index net)) as Hix.
  unfold results_of.
  destruct (answer _ _ _) as [[response|e] ix]; simpl in Hix;
    rewrite Hix by done; [|reflexivity].
  cbn [fst mbind result_bind].
  destruct (raise_for_status response) as [[]|]; [|reflexivity].
  destruct (json response) as [results_data|]; [|reflexivity].
  cbn [mbind result_bind].
  destruct (get results_data _ _) as [outer|]; [|reflexivity].
  cbn [mbind result_bind].
  destruct (get outer _ _) as [hits|]; [|reflexivity].
  cbn [mbind result_bind].
  destruct (iter hits) as [hit_list|]; [|reflexivity].
  cbn [mbind result_bind].
  by destruct (comprehension result_of_hit hit_list).
Qed.

Lemma search_photos_run env keywords net :
  search_photos_in_opensearch env keywords net = (Ok [], net)
  \/ exists auth,
       keywords <> []
       /\ OPENSEARCH_ENDPOINT env <> []
       /\ aws4auth (get_credentials env) AWS_REGION SERVICE = Ok auth
       /\ search_photos_in_opensearch env keywords net
          = (Ok (results_of
                   (answer (opensearch env)
                      (search_request env auth keywords) (index net)).1),
             {| index := index net;
                sent := sent net ++ [search_request env auth keywords] |}).
Proof.
  destruct (decide (keywords = [])) as [Hk|Hk].
  { left. unfold search_photos_in_opensearch.
    by rewrite bool_decide_eq_true_2. }
  destruct (decide (OPENSEARCH_ENDPOINT env = [])) as [Hend|Hend].
  { left. unfold search_photos_in_opensearch.
    rewrite bool_decide_eq_false_2 by done.
    by rewrite bool_decide_eq_true_2. }
  destruct (aws4auth (get_credentials env) AWS_REGION SERVICE)
    as [auth|e] eqn:Hauth.
  - right. exists auth. repeat (split; [done|]).
    by apply search_photos_proceeds.
  - left. unfold search_photos_in_opensearch.
    rewrite !bool_decide_eq_false_2 by done.
    unfold try_except, mbind, io_bind, lift. by rewrite Hauth.
Qed.

Lemma search_photos_effects env keywords net :
  exists results net',
    search_photos_in_opensearch env keywords net = (Ok results, net')
    /\ index net' = index net
    /\ (sent net' = sent net
        \/ exists auth,
             sent net' = sent net ++ [search_request env auth keywords]).
Proof.
  destruct (search_photos_run env keywords net)
    as [-> | (auth & _ & _ & _ & ->)].
  - exists [], net. auto.
  - eexists _, _. split; [reflexivity|]. split; [done|]. right. by exists auth.
Qed.

(** X5. [search_photos_in_opensearch] never raises. It sends nothing, or
    one request: the search for its keywords, posted to the [_search]
    URL of the index. It leaves the documents of the index as they
    are. *)
Theorem X5_search_sends_at_most_one_post env keywords net :
  exists results net',
    search_photos_in_opensearch env keywords net = (Ok results, net')
    /\ index net' = index net
    /\ (sent net' = sent net
        \/ exists auth,
             sent net' = sent net ++ [search_request env auth keywords]).
Proof. apply search_photos_effects. Qed.

Lemma comprehension_length {A B} (f : A -> result B) l ys :
  comprehension f l = Ok ys -> length ys = length l.
Proof.
  revert ys. induction l as [|x l IH]; intros ys; simpl.
  - by intros [= <-].
  - destruct (f x) as [y|]; [|done]. cbn [mbind result_bind].
    destruct (comprehension f l) as [ys'|]; [|done].
    cbn [mbind result_bind]. intros [= <-]. simpl. f_equal. by apply IH.
Qed.

Lemma comprehension_raises {A B} (f : A -> result B) l :
  Exists (fun x => exists e, f x = Raise e) l ->
  exists e, comprehension f l = Raise e.
Proof.
  induction 1 as [x l [e Hx] | x l _ [e IH]]; simpl.
  - rewrite Hx. by exists e.
  - destruct (f x) as [y|e']; [|by exists e'].
    cbn [mbind result_bind]. rewrite IH. by exists e.
Qed.

(** X6. The results of a search are one per hit, in the order of the
    hits, or none at all: when one hit of the answer has no [_source],
    all results are dropped, also those of the other hits. *)
Theorem X6_one_bad_hit_empties_the_results env keywords net auth
    response results_data outer hits :
  keywords <> [] ->
  OPENSEARCH_ENDPOINT env <> [] ->
  aws4auth (get_credentials env) AWS_REGION SERVICE = Ok auth ->
  (answer (opensearch env) (search_request env auth keywords)
     (index net)).1 = Ok response ->
  raise_for_status response = Ok tt ->
  json response = Ok results_data ->
  get results_data "hits" (PDict []) = Ok outer ->
  get outer "hits" (PList []) = Ok (PList hits) ->
  exists results,
    (search_photos_in_opensearch env keywords net).1 = Ok results
    /\ (results = [] \/ length results = length hits)
    /\ (Exists (fun hit => exists e, getitem hit "_source" = Raise e) hits ->
        results = [])
    /\ (Forall (fun hit => exists r, result_of_hit hit = Ok r) hits ->
        comprehension result_of_hit hits = Ok results).
Proof.
  intros Hk Hend Hauth Hanswer Hstatus Hjson Houter Hhits.
  rewrite (search_photos_proceeds env keywords net auth) by done.
  cbn [fst]. eexists. split; [reflexivity|].
  unfold results_of. rewrite Hanswer. cbn [mbind result_bind].
  rewrite Hstatus. cbn [mbind result_bind]. rewrite Hjson.
  cbn [mbind result_bind]. rewrite Houter. cbn [mbind result_bind].
  rewrite Hhits. cbn [mbind result_bind iter].
  destruct (comprehension result_of_hit hits) as [rs|e] eqn:Hrs;
    cbn [or_else].
  - split; [right; by eapply comprehension_length|]. split; [|done].
    intros Hbad.
    assert (Exists (fun hit => exists e, result_of_hit hit = Raise e) hits)
      as Hbad'.
    { eapply Exists_impl; [exact Hbad|]. intros hit [e He].
      exists e. unfold result_of_hit. by rewrite He. }
    apply comprehension_raises in Hbad' as [e He]. congruence.
  - split; [by left|]. split; [done|]. intros Hall.
    exfalso. clear -Hall Hrs. revert e Hrs.
    induction Hall as [|hit hits [r Hr] _ IH]; intros e; simpl; [done|].
    rewrite Hr. cbn [mbind result_bind].
    destruct (comprehension result_of_hit hits) as [rs|e']; [done|].
    intros _. by eapply IH.
Qed.

Lemma X6_one_bad_hit_empties_the_results_witness :
  (search_photos_in_opensearch
     (search_env_on (answering [beach1_hit; hit_without_source]))
     (strs ["beach"]) empty_net).1 = Ok []
  /\ exists results,
       (search_photos_in_opensearch
          (search_env_on (answering [beach1_hit; hit_without_source]))
          (strs ["beach"]) empty_net).1 = Ok results
       /\ (results = []
           \/ length results = length [beach1_hit; hit_without_source])
       /\ (Exists (fun hit => exists e, getitem hit "_source" = Raise e)
             [beach1_hit; hit_without_source] ->
           results = [])
       /\ (Forall (fun hit => exists r, result_of_hit hit = Ok r)
             [beach1_hit; hit_without_source] ->
           comprehension result_of_hit [beach1_hit; hit_without_source]
           = Ok results).
Proof.
  split; [vm_compute; reflexivity|].
  apply (X6_one_bad_hit_empties_the_results
           (search_env_on (answering [beach1_hit; hit_without_source]))
           (strs ["beach"]) empty_net signed
           {| status_code := 200;
              json := Ok (PDict [("hits" : str,
                                  PDict [("hits" : str,
                                          PList [beach1_hit;
                                                 hit_without_source])])]) |}
           (PDict [("hits" : str,
                    PDict [("hits" : str,
                            PList [beach1_hit; hit_without_source])])])
           (PDict [("hits" : str, PList [beach1_hit; hit_without_source])])
           [beach1_hit; hit_without_source]).
  - discriminate.
  - vm_compute. discriminate.
  - reflexivity.
  - reflexivity.
  - reflexivity.
  - reflexivity.
  - reflexivity.
  - reflexivity.
Defined.

(** X7. A document as [handle_s3_indexing] builds it, coming back as the
    [_source] of a hit, gives the result whose URL is that of the object
    in its bucket, with the key as it is, and whose labels are the labels
    of the document. *)
Theorem X7_indexed_document_comes_back env bucket key timestamp hit :
  getitem hit "_source"
  = Ok (IndexPhotos.photo_document env (PStr bucket) key timestamp) ->
  result_of_hit hit
  = Ok {| url := "https://" ++ bucket ++ ".s3.us-east-1.amazonaws.com/"
                 ++ key;
          labels :=
            PList (IndexPhotos.detect_labels env (PStr bucket) (PStr key)
                   ++ map PStr
                        (IndexPhotos.get_custom_labels env (PStr bucket)
                           (PStr key))) |}.
Proof.
  intros Hsource. unfold result_of_hit. rewrite Hsource.
  unfold IndexPhotos.photo_document. cbv zeta. reflexivity.
Qed.

Lemma X7_indexed_document_comes_back_witness :
  result_of_hit beach1_hit
  = Ok {| url := "https://album.s3.us-east-1.amazonaws.com/vacation/beach1.jpg";
          labels :=
            PList (map PStr (strs ["Beach"; "Ocean"; "Sunset"; "Family"])) |}.
Proof.
  rewrite (X7_indexed_document_comes_back (index_env sound_index)
             "album" "vacation/beach1.jpg" "2024-05-01T10:00:00" beach1_hit
             eq_refl).
  vm_compute. reflexivity.
Defined.

(** *** The API handler *)

Lemma handle_api_search_run env event net :
  match query_of event with
  | Raise e =>
      handle_api_search env event net
      = (Ok (api_answer 500 (ErrorBody (StrOf e))), net)
  | Ok user_query =>
      if bool_decide (user_query = []) then
        handle_api_search env event net
        = (Ok (api_answer 400
                 (ErrorBody (Message "Query parameter q is required"))),
           net)
      else if bool_decide (keywords_for env user_query = []) then
        handle_api_search env event net
        = (Ok (api_answer 200 (SearchBody user_query [] [])), net)
      else
        exists results net',
          search_photos_in_opensearch env (keywords_for env user_query) net
          = (Ok results, net')
          /\ handle_api_search env event net
             = (Ok (api_answer 200
                      (SearchBody user_query (keywords_for env user_query)
                         results)),
                net')
  end.
Proof.
  unfold query_of, handle_api_search, try_except, mbind, io_bind, lift,
    result_bind.
  destruct (get event "queryStringParameters" PNone) as [params|e];
    [|reflexivity].
  destruct (get (if truthy params then params else PDict []) "q" (PStr ""))
    as [q|e]; [|reflexivity].
  destruct (as_str q) as [text|e]; [|reflexivity].
  cbn [fmap result_fmap]. fold (keywords_for env (strip text)).
  case_bool_decide; [reflexivity|].
  case_bool_decide; [reflexivity|].
  destruct (SearchPhotosFacts.search_photos_returns env
              (keywords_for env (strip text)) net) as (results & net' & Hs).
  exists results, net'. split; [done|]. by rewrite Hs.
Qed.

(** X8. [handle_api_search] never raises, whatever its event. It sends no
    request, or the one search request, and leaves the documents of the
    index as they are. *)
Theorem X8_api_search_returns_and_only_searches env event net :
  exists r net',
    handle_api_search env event net = (Ok r, net')
    /\ headers r = cors_headers
    /\ index net' = index net
    /\ (sent net' = sent net
        \/ exists auth keywords,
             sent net' = sent net ++ [search_request env auth keywords]).
Proof.
  pose proof (handle_api_search_run env event net) as Hrun.
  destruct (query_of event) as [q|e];
    [|eexists _, _; split; [exact Hrun|auto]].
  case_bool_decide; [eexists _, _; split; [exact Hrun|auto]|].
  case_bool_decide; [eexists _, _; split; [exact Hrun|auto]|].
  destruct Hrun as (results & net' & Hsearch & ->).
  destruct (search_photos_effects env (keywords_for env q) net)
    as (results' & net'' & Hs & Hix & Hsent).
  rewrite Hsearch in Hs. injection Hs as <- <-.
  eexists _, _. split; [reflexivity|]. split; [done|]. split; [done|].
  destruct Hsent as [?|[auth ?]]; [by left|right].
  by exists auth, (keywords_for env q).
Qed.

(** X9. The status of the answer of [handle_api_search] depends on the
    query of the event alone: 500 when the query cannot be read from the
    event, 400 when it is missing or blank, and 200 otherwise, whatever
    Lex and the index do. With 400 and 500 nothing is sent. *)
Theorem X9_api_status_depends_on_the_query_alone env event net :
  match query_of event with
  | Raise e =>
      handle_api_search env event net
      = (Ok (api_answer 500 (ErrorBody (StrOf e))), net)
  | Ok user_query =>
      if bool_decide (user_query = []) then
        handle_api_search env event net
        = (Ok (api_answer 400
                 (ErrorBody (Message "Query parameter q is required"))),
           net)
      else
        exists keywords results net',
          handle_api_search env event net
          = (Ok (api_answer 200 (SearchBody user_query keywords results)),
             net')
  end.
Proof.
  pose proof (handle_api_search_run env event net) as Hrun.
  destruct (query_of event) as [q|e]; [|done].
  case_bool_decide; [done|].
  case_bool_decide; [by eexists _, _, _|].
  destruct Hrun as (results & net' & _ & ->). by eexists _, _, _.
Qed.

(** X10. When [handle_api_search] resolves no keywords, it reports no
    results and sends nothing to the index. *)
Theorem X10_no_keywords_no_results env event net r net' query results :
  handle_api_search env event net = (Ok r, net') ->
  body r = SearchBody query [] results ->
  results = [] /\ net' = net.
Proof.
  intros Hr Hbody. pose proof (handle_api_search_run env event net) as Hrun.
  destruct (query_of event) as [q|e].
  - case_bool_decide.
    { rewrite Hrun in Hr. injection Hr as <- <-. discriminate Hbody. }
    case_bool_decide as Hk.
    { rewrite Hrun in Hr. injection Hr as <- <-.
      by injection Hbody as _ <-. }
    destruct Hrun as (results' & net'' & _ & Hrun).
    rewrite Hrun in Hr. injection Hr as <- <-.
    injection Hbody as _ Hkw _. done.
  - rewrite Hrun in Hr. injection Hr as <- <-. discriminate Hbody.
Qed.

Lemma X10_no_keywords_no_results_witness :
  handle_api_search (search_env_on (answering [beach1_hit]))
    (api_event "show me the photos") empty_net
  = (Ok (api_answer 200 (SearchBody "show me the photos" [] [])), empty_net)
  /\ (([] : list SearchResult) = [] /\ empty_net = empty_net).
Proof.
  split; [vm_compute; reflexivity|].
  apply (X10_no_keywords_no_results
           (search_env_on (answering [beach1_hit]))
           (api_event "show me the photos") empty_net
           (api_answer 200 (SearchBody "show me the photos" [] []))
           empty_net "show me the photos" []).
  - vm_compute. reflexivity.
  - reflexivity.
Defined.

(** *** The Lex fulfillment *)

Lemma lookup_set_key_eq k v d : lookup_key k (set_key k v d) = Some v.
Proof.
  induction d as [|[k' x] d IH]; simpl.
  - by rewrite bool_decide_eq_true_2.
  - case_bool_decide as Hk; simpl.
    + by rewrite bool_decide_eq_true_2.
    + by rewrite bool_decide_eq_false_2.
Qed.

Lemma lookup_set_key_ne k k' v d :
  k <> k' -> lookup_key k' (set_key k v d) = lookup_key k' d.
Proof.
  intros Hne. induction d as [|[k'' x] d IH]; simpl.
  - by rewrite bool_decide_eq_false_2.
  - case_bool_decide as Hk; simpl.
    + subst k''. by rewrite !bool_decide_eq_false_2.
    + by rewrite IH.
Qed.

Lemma intent_of_dict event d :
  intent_of event = Ok (PDict d) ->
  exists e st,
    event = PDict e
    /\ lookup_key "sessionState" e = Some (PDict st)
    /\ lookup_key "intent" st = Some (PDict d).
Proof.
  unfold intent_of, getitem. intros H.
  destruct event as [| | | | |e]; try done.
  destruct (lookup_key "sessionState" e) as [state|] eqn:Hs; [|done].
  cbn [mbind result_bind] in H.
  destruct state as [| | | | |st]; try done.
  destruct (lookup_key "intent" st) as [i|] eqn:Hi; [|done].
  injection H as ->. by exists e, st.
Qed.

Lemma response_fields ss m attrs :
  intent (sessionState (response ss (Some [m]) attrs)) = intent ss
  /\ dialogAction (sessionState (response ss (Some [m]) attrs))
     = dialogAction ss
  /\ messages (response ss (Some [m]) attrs) = Some [m]
  /\ (sessionAttributes ss = None ->
      sessionAttributes (sessionState (response ss (Some [m]) attrs))
      = match attrs with
        | Some (a :: l) => Some (a :: l)
        | _ => None
        end).
Proof. by destruct attrs as [[|a l]|]. Qed.

Lemma close_dict event d fs msg attrs :
  intent_of event = Ok (PDict d) ->
  exists event',
    close event fs msg attrs
    = Ok {| closed_body :=
              response
                {| dialogAction := PDict [("type" : str, PStr "Close")];
                   intent := PDict (set_key "state" (PStr fs) d);
                   sessionAttributes := None |}
                (Some [text_message msg]) attrs;
            closed_event := event' |}
    /\ intent_of event' = Ok (PDict (set_key "state" (PStr fs) d))
    /\ forall k : str, k <> "sessionState" ->
         getitem event' k = getitem event k.
Proof.
  intros (e & st & -> & Hs & Hi)%intent_of_dict.
  unfold close, intent_of, getitem. rewrite Hs. cbn [mbind result_bind].
  rewrite Hi. cbn [mbind result_bind setitem].
  eexists. split; [reflexivity|]. split.
  - rewrite lookup_set_key_eq. cbn [mbind result_bind].
    by rewrite lookup_set_key_eq.
  - intros k Hk. by rewrite lookup_set_key_ne.
Qed.

Lemma handle_lex_fulfillment_run event d :
  intent_of event = Ok (PDict d) ->
  handle_lex_fulfillment event
  = match fulfillment_of (PDict d) with
    | Ok (msg, attrs) => close event "Fulfilled" msg attrs
    | Raise e => close event "Failed" (ErrorProcessing e) None
    end.
Proof.
  intros Hd. pose proof Hd as (e & st & -> & Hs & Hi)%intent_of_dict.
  assert (Hgs : getitem (PDict e) "sessionState" = Ok (PDict st)).
  { unfold getitem. by rewrite Hs. }
  assert (Hgi : getitem (PDict st) "intent" = Ok (PDict d)).
  { unfold getitem. by rewrite Hi. }
  unfold handle_lex_fulfillment, fulfillment_of. cbv zeta.
  rewrite Hgs. cbn [mbind result_bind]. rewrite Hgi.
  cbn [mbind result_bind].
  destruct (getitem (PDict d) "name") as [name|]; [|done].
  cbn [mbind result_bind].
  destruct (getitem (PDict d) "slots") as [slots|]; [|done].
  cbn [mbind result_bind get].
  destruct (eq_str name "FallbackIntent").
  - by destruct (close_dict (PDict e) d "Fulfilled" Sorry None Hd)
      as (ev & -> & _).
  - destruct (extract_keywords_from_slots slots) as [ks|]; [|done].
    cbn [mbind result_bind].
    by destruct (close_dict (PDict e) d "Fulfilled"
                   (Text ("Searching for photos with keywords: "
                          ++ join ", " ks))
                   (Some [("results" : str, dumps_strings ks)]) Hd)
      as (ev & -> & _).
Qed.

Lemma handle_lex_fulfillment_raises event :
  (forall d, intent_of event <> Ok (PDict d)) ->
  exists e, handle_lex_fulfillment event = Raise e.
Proof.
  intros Hno. unfold handle_lex_fulfillment, close. cbv zeta.
  unfold intent_of in Hno.
  destruct (getitem event "sessionState") as [state|e1];
    cbn [mbind result_bind] in *; [|by eexists].
  destruct (getitem state "intent") as [i|e2];
    cbn [mbind result_bind] in *; [|by eexists].
  destruct i as [| | | | |d]; cbn [getitem setitem mbind result_bind];
    try (by eexists).
  by destruct (Hno d).
Qed.

Lemma handle_lex_fulfillment_returns_iff event :
  (exists closed, handle_lex_fulfillment event = Ok closed)
  <-> (exists d, intent_of event = Ok (PDict d)).
Proof.
  split.
  - intros [closed Hc].
    destruct (intent_of event) as [[| | | | |d]|e] eqn:Hi;
      try (destruct (handle_lex_fulfillment_raises event) as [e' He];
           [intros d'; rewrite Hi; discriminate|congruence]).
    by exists d.
  - intros [d Hd]. rewrite (handle_lex_fulfillment_run event d Hd).
    destruct (fulfillment_of (PDict d)) as [[msg attrs]|e].
    + destruct (close_dict event d "Fulfilled" msg attrs Hd) as (ev & -> & _).
      by eexists.
    + destruct (close_dict event d "Failed" (ErrorProcessing e) None Hd)
        as (ev & -> & _).
      by eexists.
Qed.

(** X11. [handle_lex_fulfillment] returns a response exactly for the
    events whose intent is an object; for any other event, an intent that
    is missing or [null] for one, it raises: the handler of its own
    exceptions calls [close], which fails as the body did. *)
Theorem X11_fulfillment_returns_iff_intent_is_an_object event :
  (exists closed, handle_lex_fulfillment event = Ok closed)
  <-> (exists d, intent_of event = Ok (PDict d)).
Proof. apply handle_lex_fulfillment_returns_iff. Qed.

(** X12. For an event whose intent is an object, the response of
    [handle_lex_fulfillment] closes the dialog with one plain-text
    message and carries the intent of the event with its "state" set to
    "Fulfilled" or "Failed", the other entries of the intent as they
    were. The event itself is changed in the same way, and in no other
    entry. *)
Theorem X12_fulfillment_sets_the_state_of_the_intent event d :
  intent_of event = Ok (PDict d) ->
  exists closed (fs : str),
    handle_lex_fulfillment event = Ok closed
    /\ (fs = "Fulfilled" \/ fs = "Failed")
    /\ intent (sessionState (closed_body closed))
       = PDict (set_key "state" (PStr fs) d)
    /\ state_of closed = Ok (PStr fs)
    /\ (forall k : str, k <> "state" ->
          getitem (intent (sessionState (closed_body closed))) k
          = getitem (PDict d) k)
    /\ intent_of (closed_event closed)
       = Ok (intent (sessionState (closed_body closed)))
    /\ (forall k : str, k <> "sessionState" ->
          getitem (closed_event closed) k = getitem event k)
    /\ dialogAction (sessionState (closed_body closed))
       = PDict [("type" : str, PStr "Close")]
    /\ exists c,
         messages (closed_body closed)
         = Some [{| contentType := "PlainText"; content := c |}].
Proof.
  intros Hd. rewrite (handle_lex_fulfillment_run event d Hd).
  assert (Hclose : forall (fs : str) msg attrs,
             exists closed,
               close event fs msg attrs = Ok closed
               /\ intent (sessionState (closed_body closed))
                  = PDict (set_key "state" (PStr fs) d)
               /\ state_of closed = Ok (PStr fs)
               /\ (forall k : str, k <> "state" ->
                     getitem (intent (sessionState (closed_body closed))) k
                     = getitem (PDict d) k)
               /\ intent_of (closed_event closed)
                  = Ok (intent (sessionState (closed_body closed)))
               /\ (forall k : str, k <> "sessionState" ->
                     getitem (closed_event closed) k = getitem event k)
               /\ dialogAction (sessionState (closed_body closed))
                  = PDict [("type" : str, PStr "Close")]
               /\ exists c,
                    messages (closed_body closed)
                    = Some [{| contentType := "PlainText"; content := c |}]).
  { intros fs msg attrs.
    destruct (close_dict event d fs msg attrs Hd) as (ev & -> & Hev & Hrest).
    eexists. split; [reflexivity|].
    unfold state_of. cbn [closed_body closed_event].
    destruct (response_fields
                {| dialogAction := PDict [("type" : str, PStr "Close")];
                   intent := PDict (set_key "state" (PStr fs) d);
                   sessionAttributes := None |}
                (text_message msg) attrs) as (-> & -> & -> & _).
    cbn [intent dialogAction].
    split; [done|]. split.
    { unfold getitem. by rewrite lookup_set_key_eq. }
    split.
    { intros k Hk. unfold getitem. by rewrite lookup_set_key_ne. }
    split; [done|]. split; [done|]. split; [done|]. by eexists. }
  destruct (fulfillment_of (PDict d)) as [[msg attrs]|e].
  - destruct (Hclose "Fulfilled" msg attrs) as (closed & Hc & H).
    exists closed, (list_ascii_of_string "Fulfilled"). auto.
  - destruct (Hclose "Failed" (ErrorProcessing e) None) as (closed & Hc & H).
    exists closed, (list_ascii_of_string "Failed"). auto.
Qed.

Lemma X12_fulfillment_sets_the_state_of_the_intent_witness :
  exists closed,
    handle_lex_fulfillment (lex_event "SearchIntent" dogs_slots) = Ok closed
    /\ state_of closed = Ok (PStr "Fulfilled")
    /\ getitem (intent (sessionState (closed_body closed))) "name"
       = Ok (PStr "SearchIntent")
    /\ intent_of (closed_event closed)
       = Ok (intent (sessionState (closed_body closed))).
Proof.
  destruct (X12_fulfillment_sets_the_state_of_the_intent
              (lex_event "SearchIntent" dogs_slots)
              [ ("name" : str, PStr "SearchIntent");
                ("slots" : str, dogs_slots);
                ("state" : str, PStr "ReadyForFulfillment") ]
              eq_refl)
    as (closed & fs & Hrun & _ & Hintent & _ & Hkeys & Halias & _).
  exists closed. split; [exact Hrun|].
  assert (Hc : closed_body closed
               = closed_body
                   (match handle_lex_fulfillment
                            (lex_event "SearchIntent" dogs_slots) with
                    | Ok c => c
                    | Raise _ => closed
                    end)) by (by rewrite Hrun).
  split.
  { unfold state_of. rewrite Hc. vm_compute. reflexivity. }
  split; [|exact Halias].
  rewrite Hkeys by discriminate. reflexivity.
Defined.

Lemma close_reports event d fs msg attrs :
  intent_of event = Ok (PDict d) ->
  exists closed,
    close event fs msg attrs = Ok closed
    /\ message_of closed = Some msg
    /\ state_of closed = Ok (PStr fs)
    /\ attributes_of closed
       = match attrs with
         | Some (a :: l) => Some (a :: l)
         | _ => None
         end.
Proof.
  intros Hd.
  destruct (close_dict event d fs msg attrs Hd) as (ev & -> & _).
  eexists. split; [reflexivity|].
  unfold message_of, state_of, attributes_of. cbn [closed_body].
  destruct (response_fields
              {| dialogAction := PDict [("type" : str, PStr "Close")];
                 intent := PDict (set_key "state" (PStr fs) d);
                 sessionAttributes := None |}
              (text_message msg) attrs) as (-> & _ & -> & ->); [|done].
  split; [done|]. split; [|done].
  cbn [intent]. unfold getitem. by rewrite lookup_set_key_eq.
Qed.

(** X13. For the fallback intent the response apologises, is
    "Fulfilled" and carries no session attributes; the slots are not
    looked at, but they are read first: a fallback intent without the
    key "slots" is answered as "Failed", with the error of the missing
    key. *)
Theorem X13_fallback_intent_is_answered_with_an_apology event d :
  intent_of event = Ok (PDict d) ->
  lookup_key "name" d = Some (PStr "FallbackIntent") ->
  exists closed,
    handle_lex_fulfillment event = Ok closed
    /\ attributes_of closed = None
    /\ match lookup_key "slots" d with
       | Some _ =>
           message_of closed = Some Sorry
           /\ state_of closed = Ok (PStr "Fulfilled")
       | None =>
           message_of closed = Some (ErrorProcessing (KeyError "slots"))
           /\ state_of closed = Ok (PStr "Failed")
       end.
Proof.
  intros Hd Hname. rewrite (handle_lex_fulfillment_run event d Hd).
  unfold fulfillment_of, getitem. rewrite Hname. cbn [mbind result_bind].
  destruct (lookup_key "slots" d) as [slots|]; cbn [mbind result_bind].
  - replace (eq_str (PStr "FallbackIntent") "FallbackIntent") with true
      by (by vm_compute).
    destruct (close_reports event d "Fulfilled" Sorry None Hd)
      as (closed & -> & ? & ? & ?).
    by exists closed.
  - destruct (close_reports event d "Failed"
                (ErrorProcessing (KeyError "slots")) None Hd)
      as (closed & -> & ? & ? & ?).
    by exists closed.
Qed.

Lemma X13_fallback_intent_is_answered_with_an_apology_witness :
  (exists closed,
     handle_lex_fulfillment (lex_event "FallbackIntent" dogs_slots)
     = Ok closed
     /\ attributes_of closed = None
     /\ message_of closed = Some Sorry
     /\ state_of closed = Ok (PStr "Fulfilled"))
  /\ (exists closed,
        handle_lex_fulfillment
          (PDict [("sessionState" : str,
                   PDict [("intent" : str,
                           PDict [("name" : str, PStr "FallbackIntent")])])])
        = Ok closed
        /\ attributes_of closed = None
        /\ message_of closed = Some (ErrorProcessing (KeyError "slots"))
        /\ state_of closed = Ok (PStr "Failed")).
Proof.
  split.
  - apply (X13_fallback_intent_is_answered_with_an_apology
             (lex_event "FallbackIntent" dogs_slots)
             [ ("name" : str, PStr "FallbackIntent");
               ("slots" : str, dogs_slots);
               ("state" : str, PStr "ReadyForFulfillment") ]
             eq_refl eq_refl).
  - apply (X13_fallback_intent_is_answered_with_an_apology
             (PDict [("sessionState" : str,
                      PDict [("intent" : str,
                              PDict [("name" : str,
                                      PStr "FallbackIntent")])])])
             [("name" : str, PStr "FallbackIntent")]
             eq_refl eq_refl).
Defined.

Lemma lex_response_keywords event d slots :
  intent_of event = Ok (PDict d) ->
  lookup_key "slots" d = Some slots ->
  extract_keywords_from_lex_response event
  = or_else (extract_keywords_from_slots slots) [].
Proof.
  intros (e & st & -> & Hs & Hi)%intent_of_dict Hslots.
  unfold extract_keywords_from_lex_response, py_in, getitem.
  rewrite Hs. rewrite bool_decide_eq_true_2 by (by eexists).
  cbn [mbind result_bind]. rewrite Hi.
  rewrite bool_decide_eq_true_2 by (by eexists).
  cbn [mbind result_bind get]. rewrite Hslots. cbn [from_option id].
  destruct (extract_keywords_from_slots slots) as [ks|]; [|done].
  cbn [mbind result_bind or_else]. by case_bool_decide.
Qed.

(** X14. For any other intent with slots, the response lists the
    keywords of the slots in its message, joined by ", ", and carries
    them as the JSON text of the session attribute "results", also when
    there are none; when the slots cannot be read it is "Failed". The
    keywords are those that [extract_keywords_from_lex_response] finds in
    the same event: the fulfillment and the API handler resolve an
    intent to the same keywords. *)
Theorem X14_fulfillment_reports_the_keywords_of_the_slots event d name
    slots :
  intent_of event = Ok (PDict d) ->
  lookup_key "name" d = Some name ->
  eq_str name "FallbackIntent" = false ->
  lookup_key "slots" d = Some slots ->
  exists closed,
    handle_lex_fulfillment event = Ok closed
    /\ match extract_keywords_from_slots slots with
       | Ok keywords =>
           message_of closed
           = Some (Text ("Searching for photos with keywords: "
                         ++ join ", " keywords))
           /\ attributes_of closed
              = Some [("results" : str, dumps_strings keywords)]
           /\ state_of closed = Ok (PStr "Fulfilled")
           /\ extract_keywords_from_lex_response event = keywords
       | Raise e =>
           message_of closed = Some (ErrorProcessing e)
           /\ attributes_of closed = None
           /\ state_of closed = Ok (PStr "Failed")
           /\ extract_keywords_from_lex_response event = []
       end.
Proof.
  intros Hd Hname Hother Hslots.
  rewrite (handle_lex_fulfillment_run event d Hd).
  rewrite (lex_response_keywords event d slots Hd Hslots).
  unfold fulfillment_of, getitem. rewrite Hname, Hslots.
  cbn [mbind result_bind]. rewrite Hother.
  destruct (extract_keywords_from_slots slots) as [ks|e];
    cbn [mbind result_bind or_else].
  - destruct (close_reports event d "Fulfilled"
                (Text ("Searching for photos with keywords: "
                       ++ join ", " ks))
                (Some [("results" : str, dumps_strings ks)]) Hd)
      as (closed & -> & ? & ? & ?).
    by exists closed.
  - destruct (close_reports event d "Failed" (ErrorProcessing e) None Hd)
      as (closed & -> & ? & ? & ?).
    by exists closed.
Qed.

Lemma X14_fulfillment_reports_the_keywords_of_the_slots_witness :
  exists closed,
    handle_lex_fulfillment (lex_event "SearchIntent" dogs_slots) = Ok closed
    /\ message_of closed
       = Some (Text "Searching for photos with keywords: dog")
    /\ attributes_of closed
       = Some [("results" : str, dumps_strings (strs ["dog"]))].
Proof.
  destruct (X14_fulfillment_reports_the_keywords_of_the_slots
              (lex_event "SearchIntent" dogs_slots)
              [ ("name" : str, PStr "SearchIntent");
                ("slots" : str, dogs_slots);
                ("state" : str, PStr "ReadyForFulfillment") ]
              (PStr "SearchIntent") dogs_slots
              eq_refl eq_refl eq_refl eq_refl)
    as (closed & Hrun & Hreport).
  exists closed. split; [exact Hrun|].
  change (extract_keywords_from_slots dogs_slots)
    with (Ok (strs ["dog"])) in Hreport.
  destruct Hreport as (Hm & Ha & _).
  split; [exact Hm|]. exact Ha.
Defined.

(** *** The entry point *)

Lemma handle_api_search_returns env event net :
  exists r net', handle_api_search env event net = (Ok r, net').
Proof.
  pose proof (handle_api_search_run env event net) as Hrun.
  destruct (query_of event) as [q|e]; [|by eexists _, _].
  case_bool_decide; [by eexists _, _|].
  case_bool_decide; [by eexists _, _|].
  destruct Hrun as (results & net' & _ & ->). by eexists _, _.
Qed.

(** X15. An event without the key "sessionState", as the API gateway
    sends it, is handled by [handle_api_search]: for such an event
    [lambda_handler] never raises. *)
Theorem X15_api_events_never_raise env d net :
  lookup_key "sessionState" d = None ->
  exists r net',
    lambda_handler env (PDict d) net = (Ok (inr r), net')
    /\ handle_api_search env (PDict d) net = (Ok r, net').
Proof.
  intros Hs.
  destruct (handle_api_search_returns env (PDict d) net) as (r & net' & Hr).
  exists r, net'. split; [|done].
  unfold lambda_handler, mbind, io_bind, lift, py_in. rewrite Hs.
  rewrite bool_decide_eq_false_2 by (by intros [? ?]).
  cbn [mbind result_bind]. by rewrite Hr.
Qed.

Lemma X15_api_events_never_raise_witness :
  exists r net',
    lambda_handler (search_env_on (answering [beach1_hit]))
      (api_event "beaches") empty_net = (Ok (inr r), net')
    /\ handle_api_search (search_env_on (answering [beach1_hit]))
         (api_event "beaches") empty_net = (Ok r, net').
Proof.
  apply (X15_api_events_never_raise (search_env_on (answering [beach1_hit]))
           [("queryStringParameters" : str,
             PDict [("q" : str, PStr "beaches")])] empty_net).
  reflexivity.
Defined.

(** X16. An event with an intent under "sessionState" is handled by
    [handle_lex_fulfillment], and nothing is sent to the index. For such
    an event [lambda_handler] returns a response exactly when the intent
    is an object, and raises otherwise, as for an intent that is
    [null]. *)
Theorem X16_lex_events_raise_unless_intent_is_an_object env d st net :
  lookup_key "sessionState" d = Some (PDict st) ->
  is_Some (lookup_key "intent" st) ->
  lambda_handler env (PDict d) net
  = (inl <$> handle_lex_fulfillment (PDict d), net)
  /\ ((exists closed,
         lambda_handler env (PDict d) net = (Ok (inl closed), net))
      <-> exists intent, lookup_key "intent" st = Some (PDict intent)).
Proof.
  intros Hs Hi.
  assert (Hrun : lambda_handler env (PDict d) net
                 = (inl <$> handle_lex_fulfillment (PDict d), net)).
  { unfold lambda_handler, mbind, io_bind, lift, py_in, get. rewrite Hs.
    rewrite bool_decide_eq_true_2 by (by eexists).
    cbn [mbind result_bind from_option id].
    rewrite bool_decide_eq_true_2 by done.
    by destruct (handle_lex_fulfillment (PDict d)). }
  split; [exact Hrun|]. rewrite Hrun.
  assert (Hintent : intent_of (PDict d)
                    = from_option Ok (Raise (KeyError "intent"))
                        (lookup_key "intent" st)).
  { unfold intent_of, getitem. rewrite Hs. cbn [mbind result_bind].
    by destruct (lookup_key "intent" st). }
  split.
  - intros [closed Hc].
    destruct (proj1 (handle_lex_fulfillment_returns_iff (PDict d)))
      as [di Hdi].
    { destruct (handle_lex_fulfillment (PDict d)) as [c|]; [by exists c|].
      discriminate Hc. }
    exists di. rewrite Hintent in Hdi.
    destruct (lookup_key "intent" st); [|done]. by injection Hdi as ->.
  - intros [di Hdi].
    destruct (proj2 (handle_lex_fulfillment_returns_iff (PDict d)))
      as [closed ->].
    { exists di. by rewrite Hintent, Hdi. }
    by exists closed.
Qed.

Lemma X16_lex_events_raise_unless_intent_is_an_object_witness :
  lambda_handler (search_env_on sound_index)
    (PDict [("sessionState" : str, PDict [("intent" : str, PNone)])])
    empty_net
  = (Raise TypeError, empty_net)
  /\ exists closed,
       lambda_handler (search_env_on sound_index)
         (lex_event "SearchIntent" dogs_slots) empty_net
       = (Ok (inl closed), empty_net).
Proof.
  split.
  - rewrite (proj1 (X16_lex_events_raise_unless_intent_is_an_object
                      (search_env_on sound_index)
                      [("sessionState" : str, PDict [("intent" : str, PNone)])]
                      [("intent" : str, PNone)] empty_net eq_refl
                      (ex_intro _ PNone eq_refl))).
    reflexivity.
  - apply (proj2 (X16_lex_events_raise_unless_intent_is_an_object
                    (search_env_on sound_index)
                    [ ("sessionState" : str,
                       PDict
                         [ ("intent" : str,
                            PDict [ ("name" : str, PStr "SearchIntent");
                                    ("slots" : str, dogs_slots);
                                    ("state" : str,
                                     PStr "ReadyForFulfillment") ]) ]);
                      ("inputTranscript" : str, PStr "show me dogs") ]
                    [ ("intent" : str,
                       PDict [ ("name" : str, PStr "SearchIntent");
                               ("slots" : str, dogs_slots);
                               ("state" : str,
                                PStr "ReadyForFulfillment") ]) ]
                    empty_net eq_refl (ex_intro _ _ eq_refl))).
    by eexists.
Defined.

End SearchPhotosMore.

(** ** index-photos.py: further properties *)

Module IndexPhotosMore.
Import IndexPhotos IndexPhotosHandlers.

(** *** The fingerprint *)

Lemma hex_digit_is_hex d : d < 16 -> is_hex (hex_digit d).
Proof.
  intros Hd. unfold is_hex.
  do 16 (destruct d as [|d];
         [apply (bool_decide_unpack _); vm_compute; exact I|]).
  lia.
Qed.

Lemma hexdigest_is_hex content : Forall is_hex (MD5.hexdigest content).
Proof.
  unfold MD5.hexdigest, MD5.hex, MD5.digest. cbv zeta.
  destruct (MD5.chunks _ _ _) as [[[A B] C] D].
  assert (Hbytes : forall n x,
             Forall (fun b => (0 <= b < 256)%Z) (MD5.le_bytes n x)).
  { intros n x. unfold MD5.le_bytes. apply Forall_map, Forall_true.
    intros i. simpl. apply Z.mod_pos_bound. lia. }
  assert (Hall : Forall (fun b => (0 <= b < 256)%Z)
                   (MD5.le_bytes 4 A ++ MD5.le_bytes 4 B
                    ++ MD5.le_bytes 4 C ++ MD5.le_bytes 4 D)).
  { repeat (apply Forall_app; split); apply Hbytes. }
  induction Hall as [|b bs Hb _ IH]; [constructor|].
  cbn [flat_map app]. constructor; [|constructor; [|exact IH]].
  - apply hex_digit_is_hex.
    assert (0 <= b / 16 < 16)%Z
      by (split; [apply Z.div_pos|apply Z.div_lt_upper_bound]; lia).
    lia.
  - apply hex_digit_is_hex.
    assert (0 <= b mod 16 < 16)%Z by (apply Z.mod_pos_bound; lia).
    lia.
Qed.

(** X17. For a key that is a string [get_photo_hash] never raises. The
    fingerprint of an object that can be read is 12 lower-case
    hexadecimal digits; otherwise it is the key with every "/" and "."
    replaced by "_": as long as the key, and free of "/" and ".". *)
Theorem X17_fingerprint_of_a_string_key env bucket (key : str) :
  exists h,
    get_photo_hash env bucket (PStr key) = Ok h
    /\ match s3_object env bucket (PStr key) with
       | Ok obj =>
           h = take 12 (MD5.hexdigest (take 1024 (Body obj)))
           /\ length h = 12
           /\ Forall is_hex h
       | Raise _ =>
           h = replace "." "_" (replace "/" "_" key)
           /\ length h = length key
           /\ Forall (fun c => c <> "/"%char /\ c <> "."%char) h
       end.
Proof.
  unfold get_photo_hash, get_object_head.
  destruct (s3_object env bucket (PStr key)) as [obj|e];
    cbn [mbind result_bind as_str]; eexists; (split; [reflexivity|]).
  - split; [done|]. split.
    + rewrite length_take, IndexPhotosFacts.hexdigest_length. lia.
    + apply Forall_take, hexdigest_is_hex.
  - split; [done|]. split.
    + unfold replace. by rewrite !length_map.
    + unfold replace. apply Forall_map, Forall_map, Forall_true.
      intros c. simpl.
      destruct (bool_decide (c = "/"%char)) eqn:E1.
      { by rewrite bool_decide_eq_false_2. }
      apply bool_decide_eq_false in E1.
      case_bool_decide; [done|]. done.
Qed.

(** *** The labels of the metadata *)

Lemma split_on_length sep s :
  length (split_on sep s)
  = S (length (List.filter (fun c => bool_decide (c = sep)) s)).
Proof.
  induction s as [|c s IH]; [done|].
  rewrite IndexPhotosFacts.split_on_cons. simpl.
  case_bool_decide; simpl; [by rewrite IH|].
  pose proof (IndexPhotosFacts.split_on_not_nil sep s).
  destruct (split_on sep s); [done|]. exact IH.
Qed.

Lemma strip_strip s : strip (strip s) = strip s.
Proof.
  destruct (IndexPhotosFacts.strip_spec s) as (_ & _ & _ & _ & _ & Hh & Hl).
  unfold strip at 1. unfold strip_with.
  rewrite (lstrip_with_head isspace (strip s)) by exact Hh.
  rewrite (lstrip_with_head isspace (rev (strip s))) by exact Hl.
  apply rev_involutive.
Qed.

(** X18. A metadata string that is not empty gives one label more than it
    has commas, empty labels included; no label holds a comma, and none
    starts or ends with whitespace. *)
Theorem X18_one_label_per_piece env bucket key obj csv :
  s3_objects env !! (bucket, key) = Some obj ->
  Metadata obj !! ("customlabels" : str) = Some csv ->
  csv <> [] ->
  length (get_custom_labels env (PStr bucket) (PStr key))
  = S (length (List.filter (fun c => bool_decide (c = ","%char)) csv))
  /\ Forall (fun label => (","%char ∉ label) /\ strip label = label)
       (get_custom_labels env (PStr bucket) (PStr key)).
Proof.
  intros Hobj Hmeta Hne. unfold get_custom_labels, s3_object.
  rewrite Hobj. cbn [mbind result_bind]. rewrite Hmeta.
  cbn [default from_option id]. rewrite bool_decide_eq_false_2 by done.
  cbn [or_else]. split.
  - by rewrite length_map, split_on_length.
  - apply Forall_map.
    eapply Forall_impl; [apply (IndexPhotosFacts.split_on_pieces "," csv)|].
    intros piece Hpiece. simpl. split; [|apply strip_strip].
    assert (Hall : Forall (fun c => c <> ","%char) (strip piece)).
    { apply SearchPhotosMore.Forall_strip_with.
      apply List.Forall_forall. intros c Hin ->.
      by apply Hpiece, list_elem_of_In. }
    intros Hin. eapply List.Forall_forall in Hall; [|by apply list_elem_of_In].
    done.
Qed.

Lemma X18_one_label_per_piece_witness :
  get_custom_labels
    {| OPENSEARCH_ENDPOINT := "";
       get_credentials := None;
       s3_objects :=
         {[ ("album" : str, "a.jpg" : str) :=
              {| Body := [];
                 Metadata := {[ ("customlabels" : str)
                                := (" Sunset ,,Family, " : str) ]} |} ]};
       rekognition := fun _ _ => Raise ClientError;
       now_isoformat := fun _ => "";
       unquote_plus := fun key => key;
       opensearch := sound_index |}
    (PStr "album") (PStr "a.jpg")
  = strs ["Sunset"; ""; "Family"; ""]
  /\ length (strs ["Sunset"; ""; "Family"; ""])
     = S (length (List.filter (fun c => bool_decide (c = ","%char))
                    (list_ascii_of_string " Sunset ,,Family, "))).
Proof.
  split; [vm_compute; reflexivity|].
  pose proof (X18_one_label_per_piece
                {| OPENSEARCH_ENDPOINT := "";
                   get_credentials := None;
                   s3_objects :=
                     {[ ("album" : str, "a.jpg" : str) :=
                          {| Body := [];
                             Metadata := {[ ("customlabels" : str)
                                            := (" Sunset ,,Family, " : str) ]} |} ]};
                   rekognition := fun _ _ => Raise ClientError;
                   now_isoformat := fun _ => "";
                   unquote_plus := fun key => key;
                   opensearch := sound_index |}
                "album" "a.jpg"
                {| Body := [];
                   Metadata := {[ ("customlabels" : str)
                                  := (" Sunset ,,Family, " : str) ]} |}
                " Sunset ,,Family, ") as H.
  destruct H as [Hlen _].
  - vm_compute. reflexivity.
  - vm_compute. reflexivity.
  - discriminate.
  - vm_compute in Hlen. vm_compute. exact Hlen.
Defined.

(** *** One photo *)

Lemma answer_put_index sv url auth doc hs ix :
  (answer sv (put_request url auth doc hs) ix).2 = ix
  \/ (answer sv (put_request url auth doc hs) ix).2 = <[url := doc]> ix.
Proof. unfold answer. destruct (fault sv _); [by left|by right]. Qed.

Lemma index_photo_reach_cases env doc :
  OPENSEARCH_ENDPOINT env <> [] ->
  (exists e,
     (auth ← aws4auth (get_credentials env) AWS_REGION SERVICE;
      bucket ← getitem doc "bucket";
      key ← getitem doc "objectKey";
      get_photo_hash env bucket key) = Raise e)
  \/ (exists auth h, reaches_index env doc auth h).
Proof.
  intros Hend. unfold reaches_index.
  destruct (aws4auth _ _ _) as [auth|e]; [|left; by exists e].
  destruct (getitem doc "bucket") as [bucket|e]; [|left; by exists e].
  destruct (getitem doc "objectKey") as [key|e]; [|left; by exists e].
  cbn [mbind result_bind].
  destruct (get_photo_hash env bucket key) as [h|e] eqn:Hh;
    [|left; by exists e].
  right. exists auth, h. split; [done|]. split; [done|].
  by exists bucket, key.
Qed.

Lemma index_photo_effects env doc net :
  (index_photo env doc net).2 = net
  \/ exists auth h,
       reaches_index env doc auth h
       /\ (sent (index_photo env doc net).2
           = sent net ++ [check_request env auth h]
           \/ sent (index_photo env doc net).2
              = sent net ++ [check_request env auth h;
                             write_request env auth h doc])
       /\ (forall u, u <> identity_url env h ->
             index (index_photo env doc net).2 !! u = index net !! u)
       /\ (index (index_photo env doc net).2 !! identity_url env h
           = index net !! identity_url env h
           \/ index (index_photo env doc net).2 !! identity_url env h
              = Some doc).
Proof.
  destruct (decide (OPENSEARCH_ENDPOINT env = [])) as [Hend|Hend].
  { left. unfold index_photo. by rewrite bool_decide_eq_true_2. }
  destruct (index_photo_reach_cases env doc Hend)
    as [[e He] | (auth & h & Hreach)].
  { left. by rewrite (IndexPhotosFacts.index_photo_unreached env doc net e). }
  right. exists auth, h. split; [done|].
  rewrite (IndexPhotosFacts.index_photo_run env doc auth h net Hreach).
  cbv zeta.
  destruct (answered env (check_request env auth h) net) as [check|e];
    [|cbn [snd sent index]; auto].
  destruct (status_code check =? 200)%Z; [cbn [snd sent index]; auto|].
  cbn [snd sent index]. rewrite <- app_assoc. split; [by right|].
  unfold write_request.
  destruct (answer_put_index (opensearch env) (identity_url env h) auth doc
              json_headers (index net)) as [-> | ->].
  - auto.
  - split.
    + intros u Hu. by rewrite lookup_insert_ne.
    + right. by rewrite lookup_insert_eq.
Qed.

(** X19. [index_photo] sends the existence check for the identity of its
    document, then at most the write under that identity, and nothing
    else; or nothing at all. Whatever the index answers, no document
    under another URL is touched, and the document under the identity is
    as before or the new one. *)
Theorem X19_index_photo_touches_its_identity_only env doc net :
  (index_photo env doc net).2 = net
  \/ exists auth h,
       reaches_index env doc auth h
       /\ (sent (index_photo env doc net).2
           = sent net ++ [check_request env auth h]
           \/ sent (index_photo env doc net).2
              = sent net ++ [check_request env auth h;
                             write_request env auth h doc])
       /\ (forall u, u <> identity_url env h ->
             index (index_photo env doc net).2 !! u = index net !! u)
       /\ (index (index_photo env doc net).2 !! identity_url env h
           = index net !! identity_url env h
           \/ index (index_photo env doc net).2 !! identity_url env h
              = Some doc).
Proof. apply index_photo_effects. Qed.

Lemma reaches_index_unique env doc auth h auth' h' :
  reaches_index env doc auth h -> reaches_index env doc auth' h' ->
  auth = auth' /\ h = h'.
Proof.
  intros (_ & Ha & b & k & Hb & Hk & Hh) (_ & Ha' & b' & k' & Hb' & Hk' & Hh').
  rewrite Ha in Ha'. rewrite Hb in Hb'. rewrite Hk in Hk'.
  injection Ha' as <-. injection Hb' as <-. injection Hk' as <-.
  rewrite Hh in Hh'. by injection Hh' as <-.
Qed.

(** With an index that answers, an invocation that reaches the index
    leaves the identity of its document in it: the document that was
    there, or its own. *)
Lemma index_photo_stores env doc auth h net :
  no_faults (opensearch env) ->
  reaches_index env doc auth h ->
  index (index_photo env doc net).2 !! identity_url env h
  = Some (default doc (index net !! identity_url env h))
  /\ (is_Some (index net !! identity_url env h) ->
      index_photo env doc net
      = (Ok (Some false),
         {| index := index net;
            sent := sent net ++ [check_request env auth h] |})).
Proof.
  intros Hsound Hreach.
  rewrite (IndexPhotosFacts.index_photo_run env doc auth h net Hreach).
  cbv zeta.
  rewrite (IndexPhotosFacts.check_answered env auth h net) by apply Hsound.
  destruct (index net !! identity_url env h) as [old|] eqn:Hold.
  - cbn [status_code no_body Z.eqb Pos.eqb snd index default from_option id].
    by rewrite Hold.
  - cbn [status_code no_body Z.eqb Pos.eqb snd index default from_option id].
    split; [|by intros [? ?]].
    unfold answer. rewrite Hsound.
    cbn [req_method write_request put_request req_json req_url snd].
    by rewrite lookup_insert_eq.
Qed.

(** X20. With an index that answers every request, once a photo has been
    through [index_photo], its identity is in the index, and a later
    photo of the same identity is reported as a duplicate and changes
    nothing: it may be the same photo, sent again, or another one that
    shares the first 1024 bytes. A photo whose identity was absent is
    stored as it is. *)
Theorem X20_first_photo_of_an_identity_wins env doc1 doc2 auth h net :
  no_faults (opensearch env) ->
  reaches_index env doc1 auth h ->
  reaches_index env doc2 auth h ->
  let once := (index_photo env doc1 net).2 in
  is_Some (index once !! identity_url env h)
  /\ (index net !! identity_url env h = None ->
      index once !! identity_url env h = Some doc1)
  /\ index_photo env doc2 once
     = (Ok (Some false),
        {| index := index once;
           sent := sent once ++ [check_request env auth h] |}).
Proof.
  intros Hsound H1 H2. cbv zeta.
  destruct (index_photo_stores env doc1 auth h net Hsound H1) as [Hstored _].
  split; [by rewrite Hstored|]. split.
  - intros Hnone. by rewrite Hstored, Hnone.
  - apply (index_photo_stores env doc2 auth h _ Hsound H2).
    by rewrite Hstored.
Qed.

Lemma X20_first_photo_of_an_identity_wins_witness :
  let env := index_env sound_index in
  let h : str := "9a8918b11878" in
  let once := (index_photo env beach1_document empty_net).2 in
  index once !! identity_url env h = Some beach1_document
  /\ index_photo env beach2_document once
     = (Ok (Some false),
        {| index := index once;
           sent := sent once ++ [check_request env signed h] |}).
Proof.
  cbv zeta.
  assert (H1 : reaches_index (index_env sound_index) beach1_document
                 signed "9a8918b11878").
  { IndexPhotosFacts.reaches_by_evaluation "album" "vacation/beach1.jpg". }
  assert (H2 : reaches_index (index_env sound_index) beach2_document
                 signed "9a8918b11878").
  { IndexPhotosFacts.reaches_by_evaluation "album" "vacation/beach2.jpg". }
  destruct (X20_first_photo_of_an_identity_wins
              (index_env sound_index) beach1_document beach2_document
              signed "9a8918b11878" empty_net (fun _ => eq_refl) H1 H2)
    as (_ & Hstored & Hduplicate).
  split; [|exact Hduplicate].
  apply Hstored. vm_compute. reflexivity.
Defined.

(** *** A batch of records *)

Lemma index_photo_returns env doc net :
  exists r, (index_photo env doc net).1 = Ok r.
Proof.
  unfold index_photo. case_bool_decide; [by exists None|].
  unfold try_except at 1.
  match goal with
  | |- context [match ?m net with _ => _ end] =>
      destruct (m net) as [[r|e] net']
  end; by eauto.
Qed.

(** One turn of the loop of [handle_s3_indexing]. *)
Lemma for_records_cons env i record rest net :
  for_records env i (record :: rest) net
  = match document_of env i record with
    | Raise e => (Raise e, net)
    | Ok doc => for_records env (S i) rest (index_photo env doc net).2
    end.
Proof.
  cbn [for_records]. unfold document_of.
  unfold mbind at 1. unfold io_bind, lift.
  destruct (record_location env record) as [[bucket key]|e]; [|done].
  cbn [mbind result_bind fst snd]. unfold mbind, io_bind.
  case_bool_decide as Hend.
  - unfold index_photo. by rewrite bool_decide_eq_true_2.
  - destruct (index_photo_returns env
                (photo_document env bucket key (now_isoformat env i)) net)
      as [r Hr].
    destruct (index_photo env _ net) as [[r'|e] net']; [done|].
    discriminate Hr.
Qed.

Lemma for_records_located env i records net :
  Forall (located env) records ->
  (for_records env i records net).1 = Ok tt.
Proof.
  intros Hloc. revert i net.
  induction Hloc as [|record rest [location Hrecord] _ IH]; intros i net;
    [done|].
  rewrite for_records_cons. unfold document_of. rewrite Hrecord.
  cbn [mbind result_bind]. apply IH.
Qed.

Lemma for_records_app env i good rest net :
  Forall (located env) good ->
  for_records env i (good ++ rest) net
  = for_records env (i + length good) rest (for_records env i good net).2.
Proof.
  intros Hloc. revert i net.
  induction Hloc as [|record good [location Hrecord] _ IH]; intros i net.
  - cbn [app length for_records]. by rewrite Nat.add_0_r.
  - cbn [app length]. rewrite !for_records_cons. unfold document_of.
    rewrite Hrecord. cbn [mbind result_bind]. rewrite IH.
    by rewrite Nat.add_succ_comm.
Qed.

Lemma for_records_result env i records net net' :
  (for_records env i records net).1 = (for_records env i records net').1.
Proof.
  revert i net net'.
  induction records as [|record rest IH]; intros i net net'; [done|].
  rewrite !for_records_cons.
  destruct (document_of env i record); [apply IH|done].
Qed.

Lemma index_photo_sends env doc net :
  exists more,
    sent (index_photo env doc net).2 = sent net ++ more
    /\ length more <= 2
    /\ Forall check_or_write more
    /\ (OPENSEARCH_ENDPOINT env = [] -> more = []).
Proof.
  destruct (decide (OPENSEARCH_ENDPOINT env = [])) as [Hend|Hend].
  { exists []. unfold index_photo. rewrite bool_decide_eq_true_2 by done.
    cbn [snd mret io_ret]. rewrite app_nil_r.
    split; [done|]. split; [cbn; lia|]. by split. }
  destruct (index_photo_effects env doc net)
    as [-> | (auth & h & _ & [-> | ->] & _)].
  - exists []. rewrite app_nil_r.
    split; [done|]. split; [cbn; lia|]. by split.
  - eexists. split; [done|]. split; [cbn; lia|]. split; [|done].
    repeat constructor.
  - eexists. split; [done|]. split; [cbn; lia|]. split; [|done].
    constructor; [by left|]. constructor; [by right|]. constructor.
Qed.

Lemma index_photo_grows env doc net u :
  is_Some (index net !! u) ->
  is_Some (index (index_photo env doc net).2 !! u).
Proof.
  intros Hu.
  destruct (index_photo_effects env doc net)
    as [-> | (auth & h & _ & _ & Hother & Hown)]; [done|].
  destruct (decide (u = identity_url env h)) as [->|Hne].
  - by destruct Hown as [-> | ->].
  - by rewrite Hother.
Qed.

Lemma for_records_effects env i records net :
  exists more,
    sent (for_records env i records net).2 = sent net ++ more
    /\ length more <= 2 * length records
    /\ Forall check_or_write more
    /\ (OPENSEARCH_ENDPOINT env = [] -> more = []).
Proof.
  revert i net.
  induction records as [|record rest IH]; intros i net.
  { exists []. cbn [for_records mret io_ret snd]. rewrite app_nil_r.
    split; [done|]. split; [cbn; lia|]. by split. }
  rewrite for_records_cons.
  destruct (document_of env i record) as [doc|e].
  - destruct (index_photo_sends env doc net)
      as (first & Hfirst & Hlen & Hkind & Hnone).
    destruct (IH (S i) (index_photo env doc net).2)
      as (more & Hmore & Hlen' & Hkind' & Hnone').
    exists (first ++ more). rewrite Hmore, Hfirst, app_assoc.
    split; [done|]. split; [rewrite length_app; cbn [length]; lia|].
    split; [by apply Forall_app|].
    intros Hend. by rewrite Hnone, Hnone'.
  - exists []. cbn [snd]. rewrite app_nil_r. split; [done|].
    split; [cbn; lia|]. by split.
Qed.

Lemma for_records_grows env i records net u :
  is_Some (index net !! u) ->
  is_Some (index (for_records env i records net).2 !! u).
Proof.
  revert i net.
  induction records as [|record rest IH]; intros i net Hu; [done|].
  rewrite for_records_cons.
  destruct (document_of env i record); [|done].
  by apply IH, index_photo_grows.
Qed.

Lemma for_records_unconfigured env i records net :
  OPENSEARCH_ENDPOINT env = [] ->
  (for_records env i records net).2 = net.
Proof.
  intros Hend. revert i.
  induction records as [|record rest IH]; intros i; [done|].
  rewrite for_records_cons.
  destruct (document_of env i record); [|done].
  unfold index_photo. rewrite bool_decide_eq_true_2 by done. apply IH.
Qed.

(** [handle_s3_indexing], by its loop. *)
Lemma handle_s3_indexing_run env event net :
  handle_s3_indexing env event net
  = match event_records event with
    | Raise e => (Raise e, net)
    | Ok records =>
        let run := for_records env 0 records net in
        (match run.1 with Ok _ => Ok processed | Raise e => Raise e end,
         run.2)
    end.
Proof.
  unfold handle_s3_indexing, event_records, try_except.
  unfold mbind at 1. unfold io_bind, lift.
  destruct (getitem event "Records" ≫= iter) as [records|e]; [|done].
  unfold mbind, io_bind. cbv zeta.
  by destruct (for_records env 0 records net) as [[[]|e] net'].
Qed.

(** X21. [handle_s3_indexing] answers with the status 200 exactly when
    the bucket and the key of every record of the event are found; what
    happens to the photos does not count. In particular it reports
    success when no photo could be indexed. *)
Theorem X21_success_means_the_records_were_read env event records net :
  event_records event = Ok records ->
  (handle_s3_indexing env event net).1 = Ok processed
  <-> Forall (located env) records.
Proof.
  intros Hrecords. rewrite handle_s3_indexing_run, Hrecords. cbv zeta.
  cbn [fst]. split.
  - revert net. generalize 0 as i. clear Hrecords.
    induction records as [|record rest IH]; intros i net Hrun;
      [constructor|].
    rewrite for_records_cons in Hrun. unfold document_of in Hrun.
    destruct (record_location env record) as [location|e] eqn:Hrecord;
      [|discriminate Hrun].
    constructor; [by exists location|]. exact (IH _ _ Hrun).
  - intros Hloc. by rewrite for_records_located.
Qed.

Lemma X21_success_means_the_records_were_read_witness :
  let event := s3_event (strs ["vacation/beach1.jpg"]) in
  handle_s3_indexing (index_env refusing_writes) event empty_net
  = (Ok processed,
     {| index := ∅;
        sent := [check_request (index_env refusing_writes) signed
                   "9a8918b11878";
                 write_request (index_env refusing_writes) signed
                   "9a8918b11878" beach1_document] |}).
Proof.
  cbv zeta.
  pose proof (proj2 (X21_success_means_the_records_were_read
                (index_env refusing_writes)
                (s3_event (strs ["vacation/beach1.jpg"]))
                _ empty_net eq_refl)) as Hrun.
  destruct (handle_s3_indexing _ _ empty_net) as [r net'] eqn:Hrun'.
  cbn [fst] in Hrun. rewrite Hrun.
  - f_equal. apply (f_equal snd) in Hrun'. cbn [snd] in Hrun'.
    rewrite <- Hrun'. vm_compute. reflexivity.
  - constructor; [|constructor]. eexists. vm_compute. reflexivity.
Defined.

(** X22. A record whose bucket or key is not found ends the batch with
    its exception: the records after it are not looked at, and what the
    records before it did to the index stays. *)
Theorem X22_unreadable_record_ends_the_batch
    env event earlier good bad rest e net :
  event_records event = Ok (good ++ bad :: rest) ->
  event_records earlier = Ok good ->
  Forall (located env) good ->
  record_location env bad = Raise e ->
  handle_s3_indexing env event net
  = (Raise e, (handle_s3_indexing env earlier net).2).
Proof.
  intros Hevent Hearlier Hgood Hbad.
  rewrite !handle_s3_indexing_run, Hevent, Hearlier. cbv zeta.
  rewrite for_records_app by done. rewrite for_records_cons.
  unfold document_of. rewrite Hbad. reflexivity.
Qed.

Lemma X22_unreadable_record_ends_the_batch_witness :
  let env := index_env sound_index in
  let earlier := s3_event (strs ["vacation/beach1.jpg"]) in
  handle_s3_indexing env broken_event empty_net
  = (Raise (KeyError "key"), (handle_s3_indexing env earlier empty_net).2)
  /\ sent (handle_s3_indexing env earlier empty_net).2
     = [check_request env signed "9a8918b11878";
        write_request env signed "9a8918b11878" beach1_document].
Proof.
  cbv zeta. split; [|vm_compute; reflexivity].
  apply (X22_unreadable_record_ends_the_batch (index_env sound_index)
           broken_event (s3_event (strs ["vacation/beach1.jpg"]))
           [s3_record "vacation/beach1.jpg"] record_without_key
           [s3_record "vacation/beach2.jpg"] (KeyError "key") empty_net).
  - reflexivity.
  - reflexivity.
  - constructor; [|constructor]. eexists. vm_compute. reflexivity.
  - vm_compute. reflexivity.
Defined.

(** X23. [handle_s3_indexing] sends at most two requests for each
    record of its event, each one an existence check or a write, and
    none without an endpoint; it removes no document from the index. *)
Theorem X23_at_most_two_requests_per_record env event net :
  let after := (handle_s3_indexing env event net).2 in
  (exists more,
     sent after = sent net ++ more
     /\ length more <= 2 * length (records_of event)
     /\ Forall check_or_write more)
  /\ (forall u, is_Some (index net !! u) -> is_Some (index after !! u))
  /\ (OPENSEARCH_ENDPOINT env = [] -> after = net).
Proof.
  cbv zeta. rewrite handle_s3_indexing_run.
  unfold records_of, event_records.
  destruct (getitem event "Records" ≫= iter) as [records|e];
    cbn [or_else snd].
  - cbv zeta. cbn [snd].
    destruct (for_records_effects env 0 records net)
      as (more & Hmore & Hlen & Hkind & _).
    split; [by exists more|]. split.
    + intros u. apply for_records_grows.
    + apply for_records_unconfigured.
  - split; [|done]. exists []. rewrite app_nil_r.
    split; [done|]. split; [cbn; lia|]. constructor.
Qed.

Lemma X23_at_most_two_requests_per_record_witness :
  let env :=
    {| OPENSEARCH_ENDPOINT := [];
       get_credentials := Some some_credentials;
       s3_objects := s3_objects (index_env sound_index);
       rekognition := rekognition (index_env sound_index);
       now_isoformat := now_isoformat (index_env sound_index);
       unquote_plus := unquote_plus (index_env sound_index);
       opensearch := sound_index |} in
  handle_s3_indexing env (s3_event (strs ["vacation/beach1.jpg"])) empty_net
  = (Ok processed, empty_net).
Proof.
  cbv zeta.
  match goal with
  | |- handle_s3_indexing ?env ?event ?net = _ =>
      pose proof (proj2 (proj2
        (X23_at_most_two_requests_per_record env event net)) eq_refl)
        as Hafter;
      destruct (handle_s3_indexing env event net) as [r after] eqn:Hrun
  end.
  cbn [snd] in Hafter. rewrite Hafter. f_equal.
  apply (f_equal fst) in Hrun. cbn [fst] in Hrun. rewrite <- Hrun.
  vm_compute. reflexivity.
Defined.

(** *** The same event, again *)

Lemma index_photo_covered env doc net :
  no_faults (opensearch env) ->
  (forall auth h,
     reaches_index env doc auth h ->
     is_Some (index net !! identity_url env h)) ->
  index (index_photo env doc net).2 = index net.
Proof.
  intros Hsound Hcovered.
  destruct (decide (OPENSEARCH_ENDPOINT env = [])) as [Hend|Hend].
  { unfold index_photo. by rewrite bool_decide_eq_true_2. }
  destruct (index_photo_reach_cases env doc Hend)
    as [[e He] | (auth & h & Hreach)].
  { by rewrite (IndexPhotosFacts.index_photo_unreached env doc net e). }
  destruct (index_photo_stores env doc auth h net Hsound Hreach)
    as [_ Hduplicate].
  by rewrite Hduplicate by eauto.
Qed.

Lemma for_records_covers env i records net :
  no_faults (opensearch env) ->
  covered env i records (index (for_records env i records net).2).
Proof.
  intros Hsound. revert i net.
  induction records as [|record rest IH]; intros i net; [done|].
  cbn [covered]. destruct (document_of env i record) as [doc|e] eqn:Hdoc;
    [|done].
  rewrite for_records_cons, Hdoc. split; [|apply IH].
  intros auth h Hreach. apply for_records_grows.
  destruct (index_photo_stores env doc auth h net Hsound Hreach)
    as [-> _].
  done.
Qed.

Lemma for_records_stable env i records net :
  no_faults (opensearch env) ->
  covered env i records (index net) ->
  index (for_records env i records net).2 = index net.
Proof.
  intros Hsound. revert i net.
  induction records as [|record rest IH]; intros i net Hcovered; [done|].
  rewrite for_records_cons. cbn [covered] in Hcovered.
  destruct (document_of env i record) as [doc|e]; [|done].
  destruct Hcovered as [Hown Hrest].
  pose proof (index_photo_covered env doc net Hsound Hown) as Hsame.
  rewrite IH; [done|]. by rewrite Hsame.
Qed.

(** X24. With an index that answers every request, handling an event a
    second time changes no document of the index, and gives the result
    of the first time: S3 may deliver an event more than once. *)
Theorem X24_second_delivery_changes_nothing env event net :
  no_faults (opensearch env) ->
  let once := (handle_s3_indexing env event net).2 in
  index (handle_s3_indexing env event once).2 = index once
  /\ (handle_s3_indexing env event once).1
     = (handle_s3_indexing env event net).1.
Proof.
  intros Hsound. cbv zeta. rewrite !handle_s3_indexing_run.
  destruct (event_records event) as [records|e]; [|done].
  cbv zeta. cbn [fst snd]. split.
  - apply for_records_stable; [done|]. by apply for_records_covers.
  - by rewrite (for_records_result env 0 records _ net).
Qed.

Lemma X24_second_delivery_changes_nothing_witness :
  let once :=
    (handle_s3_indexing (index_env sound_index)
       (s3_event (strs ["vacation/beach1.jpg"; "vacation/beach2.jpg"]))
       empty_net).2 in
  index (handle_s3_indexing (index_env sound_index)
           (s3_event (strs ["vacation/beach1.jpg"; "vacation/beach2.jpg"]))
           once).2
  = index once
  /\ (handle_s3_indexing (index_env sound_index)
        (s3_event (strs ["vacation/beach1.jpg"; "vacation/beach2.jpg"]))
        once).1
     = (handle_s3_indexing (index_env sound_index)
          (s3_event (strs ["vacation/beach1.jpg"; "vacation/beach2.jpg"]))
          empty_net).1.
Proof.
  exact (X24_second_delivery_changes_nothing
           (index_env sound_index)
           (s3_event (strs ["vacation/beach1.jpg"; "vacation/beach2.jpg"]))
           empty_net (fun _ => eq_refl)).
Defined.

(** *** Queries *)

(** The run of [handle_query] once it has its credentials and the type
    of the query. *)
Lemma handle_query_run env event net auth query_type :
  OPENSEARCH_ENDPOINT env <> [] ->
  aws4auth (get_credentials env) AWS_REGION SERVICE = Ok auth ->
  get event "queryType" (PStr "count") = Ok query_type ->
  handle_query env event net
  = match query_request env auth query_type with
    | None =>
        (Ok {| query_statusCode := 400;
               query_body := DumpsMessage "Invalid queryType" |}, net)
    | Some rq =>
        (Ok match answered env rq net ≫= answer_of with
            | Ok r => r
            | Raise e => query_failed e
            end,
         {| index := index net; sent := sent net ++ [rq] |})
    end.
Proof.
  intros Hend Hauth Hqt. unfold handle_query.
  rewrite bool_decide_eq_false_2 by done.
  unfold try_except, mbind at 1 2, io_bind, lift. rewrite Hauth, Hqt.
  unfold query_request, answered.
  destruct (eq_str query_type "count").
  - unfold mbind at 1, io_bind, send.
    match goal with
    | |- context [answer ?sv ?rq (index net)] =>
        pose proof (SearchPhotosMore.answer_keeps_index sv rq (index net))
          as Hix;
        destruct (answer sv rq (index net)) as [[resp|e] ix]
    end; cbn [snd fst] in *; rewrite Hix by done; [|done].
    cbn [mbind result_bind]. by destruct (answer_of resp).
  - destruct (eq_str query_type "all"); [|done].
    unfold mbind at 1, io_bind, send.
    match goal with
    | |- context [answer ?sv ?rq (index net)] =>
        pose proof (SearchPhotosMore.answer_keeps_index sv rq (index net))
          as Hix;
        destruct (answer sv rq (index net)) as [[resp|e] ix]
    end; cbn [snd fst] in *; rewrite Hix by done; [|done].
    cbn [mbind result_bind]. by destruct (answer_of resp).
Qed.

Lemma answer_of_status response r :
  answer_of response = Ok r -> query_statusCode r = 200%Z.
Proof.
  unfold answer_of. destruct (status_code response =? 200)%Z.
  - destruct (json response); [|done]. cbn [mbind result_bind].
    by intros [= <-].
  - by intros [= <-].
Qed.

Lemma handle_query_effects env event net :
  exists r net',
    handle_query env event net = (Ok r, net')
    /\ query_statusCode r ∈ [200; 400; 500]%Z
    /\ index net' = index net
    /\ (sent net' = sent net
        \/ exists auth query_type rq,
             query_request env auth query_type = Some rq
             /\ sent net' = sent net ++ [rq]).
Proof.
  destruct (decide (OPENSEARCH_ENDPOINT env = [])) as [Hend|Hend].
  { eexists _, net. unfold handle_query.
    rewrite bool_decide_eq_true_2 by done. split; [reflexivity|].
    cbn [query_statusCode]. split; [set_solver|]. by split; [|left]. }
  destruct (aws4auth (get_credentials env) AWS_REGION SERVICE)
    as [auth|e] eqn:Hauth.
  2: { eexists _, net. unfold handle_query.
       rewrite bool_decide_eq_false_2 by done.
       unfold try_except, mbind at 1, io_bind, lift. rewrite Hauth.
       split; [reflexivity|]. cbn [query_statusCode].
       split; [set_solver|]. by split; [|left]. }
  destruct (get event "queryType" (PStr "count")) as [qt|e] eqn:Hqt.
  2: { eexists _, net. unfold handle_query.
       rewrite bool_decide_eq_false_2 by done.
       unfold try_except, mbind at 1 2, io_bind, lift. rewrite Hauth, Hqt.
       split; [reflexivity|]. cbn [query_statusCode].
       split; [set_solver|]. by split; [|left]. }
  rewrite (handle_query_run env event net auth qt Hend Hauth Hqt).
  destruct (query_request env auth qt) as [rq|] eqn:Hrq.
  - eexists _, _. split; [reflexivity|]. cbn [index sent].
    split; [|split; [done|right; by exists auth, qt, rq]].
    destruct (answered env rq net ≫= answer_of) as [r|e] eqn:Hr.
    + destruct (answered env rq net) as [resp|]; [|done].
      cbn [mbind result_bind] in Hr.
      rewrite (answer_of_status resp r Hr). set_solver.
    + cbn [query_failed query_statusCode]. set_solver.
  - eexists _, net. split; [reflexivity|]. cbn [query_statusCode].
    split; [set_solver|]. by split; [|left].
Qed.

(** X25. [handle_query] never raises: it answers every event, in every
    world, with the status 200, 400 or 500. It sends at most one
    request, the count or the search of all documents, and changes no
    document of the index. *)
Theorem X25_queries_are_answered_and_write_nothing env event net :
  exists r net',
    handle_query env event net = (Ok r, net')
    /\ query_statusCode r ∈ [200; 400; 500]%Z
    /\ index net' = index net
    /\ (sent net' = sent net
        \/ exists auth query_type rq,
             query_request env auth query_type = Some rq
             /\ sent net' = sent net ++ [rq]).
Proof. apply handle_query_effects. Qed.

(** X26. When the index answers a query with a status other than 200,
    as it does when it refuses the request or fails, [handle_query]
    still answers with the status 200, and with the text of that answer
    as its body. *)
Theorem X26_refused_query_is_answered_with_200
    env event net auth query_type rq refusal :
  OPENSEARCH_ENDPOINT env <> [] ->
  aws4auth (get_credentials env) AWS_REGION SERVICE = Ok auth ->
  get event "queryType" (PStr "count") = Ok query_type ->
  query_request env auth query_type = Some rq ->
  answered env rq net = Ok refusal ->
  status_code refusal <> 200%Z ->
  handle_query env event net
  = (Ok {| query_statusCode := 200; query_body := DumpsText refusal |},
     {| index := index net; sent := sent net ++ [rq] |}).
Proof.
  intros Hend Hauth Hqt Hrq Hanswer Hstatus.
  rewrite (handle_query_run env event net auth query_type Hend Hauth Hqt).
  rewrite Hrq, Hanswer. cbn [mbind result_bind]. unfold answer_of.
  apply Z.eqb_neq in Hstatus. by rewrite Hstatus.
Qed.

Lemma X26_refused_query_is_answered_with_200_witness :
  let env := index_env forbidden_queries in
  handle_query env (PDict [("action" : str, PStr "query")]) empty_net
  = (Ok {| query_statusCode := 200;
           query_body := DumpsText (no_body 403) |},
     {| index := ∅;
        sent := [get_request "https://search.example.com/photos/_count"
                   signed] |}).
Proof.
  cbv zeta.
  apply (X26_refused_query_is_answered_with_200
           (index_env forbidden_queries)
           (PDict [("action" : str, PStr "query")]) empty_net signed
           (PStr "count")
           (get_request "https://search.example.com/photos/_count" signed)
           (no_body 403)).
  - vm_compute. discriminate.
  - reflexivity.
  - reflexivity.
  - reflexivity.
  - reflexivity.
  - vm_compute. discriminate.
Defined.

(** *** The entry point *)

(** X27. An event whose action is "query" goes to [handle_query], and
    to nothing else: [lambda_handler] returns for it, and no document of
    the index changes, whatever records the event carries. *)
Theorem X27_query_events_are_not_indexed env d net :
  lookup_key "action" d = Some (PStr "query") ->
  exists r net',
    lambda_handler env (PDict d) net = (Ok (inl r), net')
    /\ handle_query env (PDict d) net = (Ok r, net')
    /\ index net' = index net.
Proof.
  intros Haction.
  destruct (handle_query_effects env (PDict d) net)
    as (r & net' & Hrun & _ & Hindex & _).
  exists r, net'. split; [|done].
  unfold lambda_handler, mbind at 1, io_bind, lift, get. rewrite Haction.
  cbn [from_option id eq_str is_str].
  rewrite bool_decide_eq_true_2 by done.
  unfold mbind, io_bind. by rewrite Hrun.
Qed.

Lemma X27_query_events_are_not_indexed_witness :
  let event :=
    PDict [ ("action" : str, PStr "query");
            ("Records" : str, PList [s3_record "vacation/beach1.jpg"]) ] in
  exists r net',
    lambda_handler (index_env sound_index) event empty_net
    = (Ok (inl r), net')
    /\ handle_query (index_env sound_index) event empty_net = (Ok r, net')
    /\ index net' = ∅.
Proof.
  cbv zeta.
  apply (X27_query_events_are_not_indexed (index_env sound_index)
           [ ("action" : str, PStr "query");
             ("Records" : str, PList [s3_record "vacation/beach1.jpg"]) ]
           empty_net).
  reflexivity.
Defined.

(** X28. Every other event is an S3 event for [lambda_handler]: one
    with no records, as a manual invocation with a misspelt action,
    raises [KeyError], and nothing is sent. *)
Theorem X28_other_events_need_records env d net :
  lookup_key "action" d <> Some (PStr "query") ->
  lambda_handler env (PDict d) net
  = (inr <$> (handle_s3_indexing env (PDict d) net).1,
     (handle_s3_indexing env (PDict d) net).2)
  /\ (lookup_key "Records" d = None ->
      lambda_handler env (PDict d) net = (Raise (KeyError "Records"), net)).
Proof.
  intros Haction.
  assert (Hrun : lambda_handler env (PDict d) net
                 = (inr <$> (handle_s3_indexing env (PDict d) net).1,
                    (handle_s3_indexing env (PDict d) net).2)).
  { unfold lambda_handler, mbind at 1, io_bind, lift, get.
    assert (Hne : eq_str (from_option id PNone (lookup_key "action" d))
                    "query" = false).
    { destruct (lookup_key "action" d) as [[| | |a| |]|]; try done.
      cbn [from_option id eq_str is_str].
      apply bool_decide_eq_false_2. by intros ->. }
    rewrite Hne. unfold mbind, io_bind.
    by destruct (handle_s3_indexing env (PDict d) net) as [[r|e] net']. }
  split; [exact Hrun|]. intros Hrecords. rewrite Hrun.
  rewrite handle_s3_indexing_run. unfold event_records, getitem.
  by rewrite Hrecords.
Qed.

Lemma X28_other_events_need_records_witness :
  lambda_handler (index_env sound_index)
    (PDict [("action" : str, PStr "Query")]) empty_net
  = (Raise (KeyError "Records"), empty_net).
Proof.
  apply (X28_other_events_need_records (index_env sound_index)
           [("action" : str, PStr "Query")] empty_net).
  - vm_compute. discriminate.
  - reflexivity.
Defined.

End IndexPhotosMore.
